(** * Verification of the MQTT broker core (T1_TP)

    Shallow embedding of the parts of the broker that the specification
    talks about: the Connect and PingReq decoders, the publish handler,
    the connected-client loop, the accept loop with its periodic dump,
    the dump and restore of the persisted JSON snapshot and
    [Connect::set_id] of the shared packets crate. *)

From Stdlib Require Import ZArith List String Ascii Bool Lia.
Import ListNotations.
Open Scope Z_scope.

(** ** Results and the byte reader *)

(** Rust's [Result]. *)
Inductive result (A E : Type) : Type :=
| Ok (a : A)
| Err (e : E).
Arguments Ok {A E} a.
Arguments Err {A E} e.

(** [packets::packet_error::ErrorKind]; [Other] stands for the kind of
    [PacketError::new()], [PacketError::new_msg] and of converted I/O errors. *)
Inductive ErrorKind : Type :=
| InvalidControlPacketType
| InvalidFlags
| InvalidProtocol
| InvalidProtocolLevel
| MalformedLength
| InvalidUtf8
| Other.

(** A byte is a [u8] held in a [Z] between 0 and 255; a stream that
    implements [Read] is the list of the bytes it still holds. A reader
    consumes a prefix of the stream or fails. *)
Definition Reader (A : Type) : Type := list Z -> result (A * list Z) ErrorKind.

Definition ret {A} (a : A) : Reader A := fun s => Ok (a, s).
Definition fail {A} (e : ErrorKind) : Reader A := fun _ => Err e.
Definition bind {A B} (m : Reader A) (k : A -> Reader B) : Reader B :=
  fun s => match m s with
           | Ok (a, s') => k a s'
           | Err e => Err e
           end.

Notation "x <- m ;; k" := (bind m (fun x => k))
  (at level 61, m at next level, right associativity).

(** [read_exact] on a buffer of [n] bytes; running out of bytes is an
    [UnexpectedEof] I/O error. *)
Definition read_exact (n : nat) : Reader (list Z) :=
  fun s => if (n <=? List.length s)%nat then Ok (firstn n s, skipn n s) else Err Other.

Definition read_byte : Reader Z :=
  fun s => match s with
           | b :: s' => Ok (b, s')
           | [] => Err Other
           end.

Fixpoint bytes_of_string (s : string) : list Z :=
  match s with
  | EmptyString => []
  | String c s' => Z.of_nat (nat_of_ascii c) :: bytes_of_string s'
  end.

(** ** UTF-8 fields *)

Definition in_range (lo hi b : Z) : bool := (lo <=? b) && (b <=? hi).
Definition cont (b : Z) : bool := in_range 0x80 0xBF b.

(** Second byte of a three-byte sequence: no overlong forms, no surrogates. *)
Definition second3 (b c : Z) : bool :=
  if b =? 0xE0 then in_range 0xA0 0xBF c
  else if b =? 0xED then in_range 0x80 0x9F c
  else cont c.

(** Second byte of a four-byte sequence: no overlong forms, nothing above U+10FFFF. *)
Definition second4 (b c : Z) : bool :=
  if b =? 0xF0 then in_range 0x90 0xBF c
  else if b =? 0xF4 then in_range 0x80 0x8F c
  else cont c.

(** Well-formed (shortest-form) UTF-8, as [String::from_utf8] accepts it. *)
Fixpoint utf8_valid (l : list Z) : bool :=
  match l with
  | [] => true
  | b :: r =>
      if b <? 0x80 then utf8_valid r
      else if in_range 0xC2 0xDF b then
        match r with
        | c1 :: r' => cont c1 && utf8_valid r'
        | _ => false
        end
      else if in_range 0xE0 0xEF b then
        match r with
        | c1 :: c2 :: r' => second3 b c1 && cont c2 && utf8_valid r'
        | _ => false
        end
      else if in_range 0xF0 0xF4 b then
        match r with
        | c1 :: c2 :: c3 :: r' => second4 b c1 && cont c2 && cont c3 && utf8_valid r'
        | _ => false
        end
      else false
  end.

(** Modelled from the spec: [Field::new_from_stream] of the missing
    [utf8.rs] module. A UTF-8 field is a 2-byte big-endian length followed
    by that many bytes; a field that is cut short, is not well-formed
    UTF-8 or contains U+0000 is rejected ([None]). The value is kept as
    its UTF-8 bytes. *)
Definition field_new_from_stream (s : list Z) : option (list Z * list Z) :=
  match s with
  | hi :: lo :: r =>
      let n := Z.to_nat (hi * 256 + lo) in
      if (n <=? List.length r)%nat then
        let v := firstn n r in
        if utf8_valid v && negb (existsb (Z.eqb 0) v) then Some (v, skipn n r)
        else None
      else None
  | _ => None
  end.

(** A field read whose failure is [PacketError::new()]. *)
Definition read_field : Reader (list Z) :=
  fun s => match field_new_from_stream s with
           | Some (v, s') => Ok (v, s')
           | None => Err Other
           end.

(** Encoding of a field, used to build concrete packets. *)
Definition field_encode (v : list Z) : list Z :=
  let n := Z.of_nat (List.length v) in Z.shiftr n 8 :: Z.land n 255 :: v.

(** ** Remaining length *)

(** Variable-length remaining length: 7 data bits per byte, the most
    significant bit is the continuation bit, at most 4 bytes. *)
Fixpoint varint_go (fuel : nat) (mult acc : Z) (s : list Z) : result (Z * list Z) ErrorKind :=
  match fuel with
  | O => Err MalformedLength
  | S f =>
      match s with
      | [] => Err Other
      | b :: r =>
          let acc' := acc + Z.land b 127 * mult in
          if Z.land b 128 =? 0 then Ok (acc', r) else varint_go f (mult * 128) acc' r
      end
  end.

Definition decode_remaining_length (s : list Z) : result (Z * list Z) ErrorKind :=
  varint_go 4 1 0 s.

(** Modelled from the spec: [packets::packet_reader::read_remaining_bytes]
    of the shared packets crate (not in the sources). It decodes the
    remaining length from the stream and then reads a payload of exactly
    that many bytes; the payload is returned as a buffer, the rest of the
    stream is left unread. *)
Definition read_remaining_bytes (s : list Z) : result (list Z * list Z) ErrorKind :=
  match decode_remaining_length s with
  | Err e => Err e
  | Ok (len, s') => read_exact (Z.to_nat len) s'
  end.

(** ** The server's Connect decoder ([src/server/src/packets/connect.rs]) *)

Module ServerConnect.

Definition RESERVED : Z := 0x1.
Definition CLEAN_SESSION : Z := 0x2.
Definition WILL_FLAG : Z := 0x4.
Definition WILL_QOS_0 : Z := 0x8.
Definition WILL_QOS_1 : Z := 0x10.
Definition WILL_RETAIN : Z := 0x20.
Definition PASSWORD_FLAG : Z := 0x40.
Definition USERNAME_FLAG : Z := 0x80.
Definition PROTOCOL_LEVEL : Z := 4.

Inductive QoSLevel : Type := QoSLevel0 | QoSLevel1.

Record LastWill : Type := {
  retain : bool;
  qos : QoSLevel;
  topic : list Z;
  message : list Z
}.

Record Connect : Type := {
  client_id : list Z;
  clean_session : bool;
  user_name : option (list Z);
  password : option (list Z);
  last_will : option LastWill;
  keep_alive : Z
}.

Definition set_keep_alive (c : Connect) (k : Z) : Connect :=
  {| client_id := client_id c; clean_session := clean_session c;
     user_name := user_name c; password := password c;
     last_will := last_will c; keep_alive := k |}.

Definition set_client_id (c : Connect) (id : list Z) : Connect :=
  {| client_id := id; clean_session := clean_session c;
     user_name := user_name c; password := password c;
     last_will := last_will c; keep_alive := keep_alive c |}.

Definition set_last_will (c : Connect) (lw : option LastWill) : Connect :=
  {| client_id := client_id c; clean_session := clean_session c;
     user_name := user_name c; password := password c;
     last_will := lw; keep_alive := keep_alive c |}.

Definition set_auth (c : Connect) (u p : option (list Z)) : Connect :=
  {| client_id := client_id c; clean_session := clean_session c;
     user_name := u; password := p;
     last_will := last_will c; keep_alive := keep_alive c |}.

Definition flag (b m : Z) : bool := negb (Z.land b m =? 0).

Definition verify_protocol : Reader unit :=
  fun s => match field_new_from_stream s with
           | Some (v, s') =>
               if list_eq_dec Z.eq_dec v (bytes_of_string "MQTT") then Ok (tt, s')
               else Err InvalidProtocol
           | None => Err Other
           end.

Definition verify_protocol_level : Reader unit :=
  b <- read_byte ;;
  if negb (b =? PROTOCOL_LEVEL) then fail InvalidProtocolLevel else ret tt.

Definition get_will (b : Z) : result (option LastWill) ErrorKind :=
  if flag b WILL_FLAG then
    Ok (Some {| retain := flag b WILL_RETAIN;
                qos := if Z.land b WILL_QOS_0 =? 0 then QoSLevel0 else QoSLevel1;
                topic := []; message := [] |})
  else if flag b WILL_QOS_0 || flag b WILL_QOS_1 || flag b WILL_RETAIN then
    Err InvalidFlags
  else Ok None.

Definition get_flags : Reader Connect :=
  b <- read_byte ;;
  if flag b RESERVED then fail InvalidFlags
  else fun s =>
    match get_will b with
    | Err e => Err e
    | Ok lw =>
        Ok ({| client_id := [];
               clean_session := flag b CLEAN_SESSION;
               user_name := if flag b USERNAME_FLAG then Some [] else None;
               password := if flag b PASSWORD_FLAG then Some [] else None;
               last_will := lw;
               keep_alive := 0 |}, s)
    end.

Definition get_keepalive (c : Connect) : Reader Connect :=
  buf <- read_exact 2 ;;
  match buf with
  | [hi; lo] => ret (set_keep_alive c (hi * 256 + lo))
  | _ => fail Other
  end.

Definition get_clientid (c : Connect) : Reader Connect :=
  v <- read_field ;; ret (set_client_id c v).

Definition get_will_data (c : Connect) : Reader Connect :=
  match last_will c with
  | Some lw =>
      t <- read_field ;;
      m <- read_field ;;
      ret (set_last_will c (Some {| retain := retain lw; qos := qos lw;
                                    topic := t; message := m |}))
  | None => ret c
  end.

Definition get_auth (c : Connect) : Reader Connect :=
  u <- match user_name c with
       | Some _ => v <- read_field ;; ret (Some v)
       | None => ret None
       end ;;
  p <- match password c with
       | Some _ => v <- read_field ;; ret (Some v)
       | None => ret None
       end ;;
  ret (set_auth c u p).

(** Modelled from the spec: [packet_reader::read_packet_bytes] of the
    server's missing [packet_reader] module. The fixed header is the
    control byte (upper nibble: packet type 1) and the first byte of the
    remaining length; the remaining length continues on the stream when
    that byte has its continuation bit set. Exactly that many bytes are
    then read into a buffer. *)
Definition read_packet_bytes (fixed_header : Z * Z) (stream : list Z)
  : result (list Z * list Z) ErrorKind :=
  let (control, len0) := fixed_header in
  if negb (Z.shiftr control 4 =? 1) then Err InvalidControlPacketType
  else match decode_remaining_length (len0 :: stream) with
       | Err e => Err e
       | Ok (len, s') => read_exact (Z.to_nat len) s'
       end.

(** The fields of the body, in the order [Connect::new] parses them; the
    bytes of the body left unread are returned. *)
Definition connect_fields : Reader Connect :=
  _ <- verify_protocol ;;
  _ <- verify_protocol_level ;;
  c <- get_flags ;;
  c <- get_keepalive c ;;
  c <- get_clientid c ;;
  c <- get_will_data c ;;
  get_auth c.

(** [Connect::new]: after the fields, one more [read] of one byte must
    return [Ok(0)]. *)
Definition new (fixed_header : Z * Z) (stream : list Z) : result Connect ErrorKind :=
  match read_packet_bytes fixed_header stream with
  | Err e => Err e
  | Ok (body, _) =>
      match connect_fields body with
      | Err e => Err e
      | Ok (c, rest) =>
          match rest with
          | [] => Ok c
          | _ :: _ => Err Other
          end
      end
  end.

(** A packet as the tests build it: header [0x10] and a one-byte length. *)
Definition packet (body : list Z) : (Z * Z) * list Z :=
  ((0x10, Z.of_nat (List.length body)), body).

Definition decode (body : list Z) : result Connect ErrorKind :=
  let '(h, s) := packet body in new h s.

End ServerConnect.

(** ** PingReq ([src/server/src/server_packets/pingreq.rs]) *)

Module PingReqPacket.

Definition PINGREQ_PACKET_TYPE : Z := 0xC0.
Definition PACKET_TYPE_MASK : Z := 0xF0.
Definition RESERVED_BYTES_MASK : Z := 0x0F.
Definition RESERVED_BYTES : Z := 0x00.

Inductive PingReq : Type := mkPingReq.

Definition check_packet_type (control_byte : Z) : result unit ErrorKind :=
  if negb (Z.land control_byte PACKET_TYPE_MASK =? PINGREQ_PACKET_TYPE)
  then Err InvalidControlPacketType else Ok tt.

(** [PacketError::new_msg]: an error of the default kind. *)
Definition check_reserved_bytes (control_byte : Z) : result unit ErrorKind :=
  if negb (Z.land control_byte RESERVED_BYTES_MASK =? RESERVED_BYTES)
  then Err Other else Ok tt.

(** [PingReq::read_from]: the control byte was already read; the stream
    holds the remaining length and the rest. [read_exact] of one byte on
    the remaining bytes succeeds iff the buffer is not empty, and fails
    with [UnexpectedEof] iff it is empty. *)
Definition read_from (stream : list Z) (control_byte : Z) : result PingReq ErrorKind :=
  match check_packet_type control_byte with
  | Err e => Err e
  | Ok _ =>
      match check_reserved_bytes control_byte with
      | Err e => Err e
      | Ok _ =>
          match read_remaining_bytes stream with
          | Err e => Err e
          | Ok (bytes, _) =>
              match bytes with
              | _ :: _ => Err Other
              | [] => Ok mkPingReq
              end
          end
      end
  end.

End PingReqPacket.

(** ** Errors of the server ([server_error::ServerErrorKind]) *)

Inductive ServerErrorKind : Type :=
| ProtocolViolation
| ConnectionRefused
| Timeout
| ClientDisconnected
| ClientNotFound
| RepeatedId
| DumpError
| Idle
| ServerIo.

Definition is_timeout (k : ServerErrorKind) : bool :=
  match k with Timeout => true | _ => false end.

(** ** Publish handling ([Server::handle_publish]) *)

Module PublishHandling.

(** Modelled from the spec: the [Publish] packet of the shared packets
    crate: flags dup, qos (wire value 0, 1 or 2) and retain, topic name,
    packet id (present iff qos > 0) and payload; [set_max_qos] lowers the
    QoS to at most the given level. *)
Record Publish : Type := {
  dup : bool;
  qos : Z;
  retain : bool;
  topic_name : string;
  packet_id : option Z;
  payload : list Z
}.

Definition set_max_qos (p : Publish) (max : Z) : Publish :=
  {| dup := dup p; qos := Z.min (qos p) max; retain := retain p;
     topic_name := topic_name p; packet_id := packet_id p; payload := payload p |}.

(** Packet id present iff qos > 0, and qos is a wire value 0..2. *)
Definition well_formed (p : Publish) : Prop :=
  0 <= qos p <= 2 /\ (packet_id p <> None <-> 0 < qos p).

Definition QoSLevel1 : Z := 1.

(** What [handle_publish] does, in order. *)
Inductive Effect : Type :=
| SendPuback (client : string) (packet_id : Z)
| Broadcast (p : Publish).

(** [handle_publish publish id]. [puback_sent] is the outcome of
    [client_do(id, send_packet(Puback))] (with the [?]s before it), and
    [broadcast] that of [broadcast_publish(publish)], whose result the
    handler returns. *)
Definition handle_publish (publish : Publish) (id : string)
    (puback_sent broadcast : result unit ServerErrorKind)
  : list Effect * result unit ServerErrorKind :=
  let publish := set_max_qos publish QoSLevel1 in
  match packet_id publish with
  | Some pid =>
      match puback_sent with
      | Err e => ([SendPuback id pid], Err e)
      | Ok _ => ([SendPuback id pid; Broadcast publish], broadcast)
      end
  | None => ([Broadcast publish], broadcast)
  end.

End PublishHandling.

(** ** The connected-client loop ([Server::client_loop]) *)

Module ClientLoop.

Inductive PacketType : Type :=
| PConnect | PConnack | PPublish | PPuback | PSubscribe | PSuback
| PUnsubscribe | PUnsuback | PPingReq | PPingResp | PDisconnect.

Definition is_disconnect (t : PacketType) : bool :=
  match t with PDisconnect => true | _ => false end.

(** Times and durations are in milliseconds. *)
Definition MIN_ELAPSED_TIME : option nat := Some 2000%nat.

(** Result of one [process_packet] call. *)
Inductive ReadOutcome : Type :=
| Processed (t : PacketType)
| Failed (k : ServerErrorKind).

(** One iteration as seen from the loop: the value of [SystemTime::now()]
    taken after the read, the read's outcome, and whether the
    [send_unacknowledged] call of a timeout succeeds. *)
Record Event : Type := {
  ev_now : nat;
  ev_read : ReadOutcome;
  ev_resend_ok : bool
}.

Inductive Call : Type := SendUnacknowledged (min_elapsed : option nat).

Inductive LoopOutcome : Type :=
| Running (last_activity : nat)
| Returned (r : result bool ServerErrorKind).

(** [SystemTime::duration_since]: fails when the clock went backwards. *)
Definition duration_since (now earlier : nat) : option nat :=
  if (earlier <=? now)%nat then Some (now - earlier)%nat else None.

(** The loop on a finite prefix of events; [Running] when the events run
    out before the loop returns. *)
Fixpoint client_loop (keep_alive_opt : option nat) (last_activity : nat)
    (evs : list Event) : LoopOutcome * list Call :=
  match evs with
  | [] => (Running last_activity, [])
  | ev :: evs' =>
      match ev_read ev with
      | Processed t =>
          if is_disconnect t then (Returned (Ok true), [])
          else client_loop keep_alive_opt (ev_now ev) evs'
      | Failed k =>
          if is_timeout k then
            let c := SendUnacknowledged MIN_ELAPSED_TIME in
            if negb (ev_resend_ok ev) then (Returned (Err ClientNotFound), [c])
            else
              let continue_ :=
                let (o, cs) := client_loop keep_alive_opt last_activity evs' in
                (o, c :: cs) in
              match keep_alive_opt with
              | Some keep_alive =>
                  match duration_since (ev_now ev) last_activity with
                  | None => (Returned (Err ServerIo), [c])
                  | Some d =>
                      if (keep_alive <? d)%nat then (Returned (Ok false), [c])
                      else continue_
                  end
              | None => continue_
              end
          else (Returned (Ok false), [])
      end
  end.

(** [manage_successful_connection]: [client_loop(..).unwrap_or(false)]. *)
Definition gracefully (o : LoopOutcome) : option bool :=
  match o with
  | Returned (Ok b) => Some b
  | Returned (Err _) => Some false
  | Running _ => None
  end.

Definition keep_alive_exceeded (keep_alive_opt : option nat) (last now : nat) : bool :=
  match keep_alive_opt with
  | Some k => (k <? now - last)%nat
  | None => false
  end.

End ClientLoop.

(** ** Persistence ([src/server/src/server/dump.rs]) *)

Module Persistence.

Local Open Scope string_scope.
Local Set Warnings "-register-all".

(** [serde_json::Value]. An object is [serde_json::Map]: without the
    [preserve_order] feature a [BTreeMap], so its keys are unique and kept
    in sorted order. *)
Inductive json : Type :=
| JNull
| JBool (b : bool)
| JNumber (z : Z)
| JString (s : string)
| JArray (l : list json)
| JObject (m : list (string * json)).

Definition chr (n : nat) : ascii := ascii_of_nat n.

Fixpoint digits (fuel : nat) (n : Z) (acc : string) : string :=
  match fuel with
  | O => acc
  | S f =>
      let acc' := String (chr (48 + Z.to_nat (n mod 10))) acc in
      if Z.eqb (n / 10) 0 then acc' else digits f (n / 10) acc'
  end.

Definition string_of_Z (z : Z) : string :=
  let a := Z.abs z in
  let s := digits (Z.to_nat (Z.log2 a + 2)) a EmptyString in
  if Z.ltb z 0 then String "-" s else s.

Definition hex_digit (n : nat) : ascii :=
  if (n <? 10)%nat then chr (48 + n) else chr (87 + n).

(** serde_json's string escaping. *)
Fixpoint escape (s : string) : string :=
  match s with
  | EmptyString => EmptyString
  | String c s' =>
      let n := nat_of_ascii c in
      let e :=
        if (n =? 34)%nat then String "\" (String c EmptyString)
        else if (n =? 92)%nat then String "\" (String c EmptyString)
        else if (n =? 10)%nat then "\n"
        else if (n =? 13)%nat then "\r"
        else if (n =? 9)%nat then "\t"
        else if (n =? 8)%nat then "\b"
        else if (n =? 12)%nat then "\f"
        else if (n <? 32)%nat then
          String "\" (String "u" (String "0" (String "0"
            (String (hex_digit (n / 16)) (String (hex_digit (n mod 16)) EmptyString)))))
        else String c EmptyString in
      e ++ escape s'
  end.

Definition quote (s : string) : string := String (chr 34) (escape s ++ String (chr 34) EmptyString).

Definition nl : string := String (chr 10) EmptyString.

Fixpoint indent (n : nat) : string :=
  match n with O => EmptyString | S k => "  " ++ indent k end.

(** [serde_json::to_string_pretty]: two-space indentation. *)
Fixpoint pretty (lvl : nat) (j : json) {struct j} : string :=
  match j with
  | JNull => "null"
  | JBool true => "true"
  | JBool false => "false"
  | JNumber z => string_of_Z z
  | JString s => quote s
  | JArray [] => "[]"
  | JArray l =>
      let fix items (first : bool) (l : list json) : string :=
        match l with
        | [] => EmptyString
        | x :: l' =>
            (if first then nl else "," ++ nl) ++ indent (S lvl) ++ pretty (S lvl) x
            ++ items false l'
        end in
      "[" ++ items true l ++ nl ++ indent lvl ++ "]"
  | JObject [] => "{}"
  | JObject m =>
      let fix entries (first : bool) (m : list (string * json)) : string :=
        match m with
        | [] => EmptyString
        | (k, v) :: m' =>
            (if first then nl else "," ++ nl) ++ indent (S lvl) ++ quote k ++ ": "
            ++ pretty (S lvl) v ++ entries false m'
        end in
      "{" ++ entries true m ++ nl ++ indent lvl ++ "}"
  end.

Definition to_string_pretty (j : json) : string := pretty 0 j.

(** [json!({"topic_handler": th, "clients_manager": cm})]: a map, hence
    with its keys sorted. *)
Definition snapshot (topic_handler clients_manager : json) : json :=
  JObject [("clients_manager", clients_manager); ("topic_handler", topic_handler)].

(** [str::rsplit_once(MAIN_SEPARATOR)] on a Unix host. *)
Fixpoint rsplit_once (s : string) : option (string * string) :=
  match s with
  | EmptyString => None
  | String a s' =>
      match rsplit_once s' with
      | Some (pre, post) => Some (String a pre, post)
      | None => if ascii_dec a "/" then Some (EmptyString, s') else None
      end
  end.

(** The file system as seen by [dump]: the contents of each file, the
    directories that exist, and the paths on which creating a directory or
    a file fails (missing permission, read-only mount, ...). *)
Record FileSystem : Type := {
  contents : string -> option string;
  dirs : string -> bool;
  read_only : string -> bool
}.

Inductive FsOp : Type :=
| CreateDirAll (dir : string)
| FileCreate (path : string)          (** [File::create]: create or truncate *)
| WriteAll (path : string) (data : string).

Definition update (fs : FileSystem) (p : string) (v : option string) : FileSystem :=
  {| contents := fun q => if String.eqb q p then v else contents fs q;
     dirs := dirs fs;
     read_only := read_only fs |}.

(** [fs::create_dir_all(d)]: [d] and each of its ancestors exist afterwards. *)
Definition mkdir_all (fs : FileSystem) (d : string) : FileSystem :=
  {| contents := contents fs;
     dirs := fun q => String.eqb q d || String.prefix (q ++ "/") d || dirs fs q;
     read_only := read_only fs |}.

(** Creating a file fails when the directory it is to be put in does not
    exist. *)
Definition parent_missing (fs : FileSystem) (p : string) : bool :=
  match rsplit_once p with
  | Some (dir, _) => negb (dirs fs dir)
  | None => false
  end.

Definition fs_step (fs : FileSystem) (op : FsOp) : result FileSystem ServerErrorKind :=
  match op with
  | CreateDirAll d => if read_only fs d then Err ServerIo else Ok (mkdir_all fs d)
  | FileCreate p =>
      if read_only fs p || parent_missing fs p then Err ServerIo
      else Ok (update fs p (Some EmptyString))
  | WriteAll p data =>
      if read_only fs p then Err ServerIo
      else let old := match contents fs p with Some o => o | None => EmptyString end in
           Ok (update fs p (Some (old ++ data)))
  end.

(** Runs the operations until one fails; returns the outcome and every
    state the file system went through after the first one. *)
Fixpoint run_ops (fs : FileSystem) (ops : list FsOp)
  : result FileSystem ServerErrorKind * list FileSystem :=
  match ops with
  | [] => (Ok fs, [])
  | op :: ops' =>
      match fs_step fs op with
      | Err e => (Err e, [])
      | Ok fs' => let (r, tr) := run_ops fs' ops' in (r, fs' :: tr)
      end
  end.

(** [fs::write(path, data)] is [File::create(path)?.write_all(data)]. *)
Definition fs_write (path data : string) : list FsOp :=
  [FileCreate path; WriteAll path data].

(** [Server::dump]. [dump_info] is [config.dump_info()] (path and
    interval); [topic_handler] and [clients_manager] are the outcomes of
    [serde_json::to_value] on the two components. *)
Definition dump (dump_info : option (string * nat))
    (topic_handler clients_manager : result json string) (fs : FileSystem)
  : result FileSystem ServerErrorKind * list FileSystem :=
  match dump_info with
  | None => (Ok fs, [])
  | Some (path, _) =>
      match topic_handler with
      | Err _ => (Err DumpError, [])
      | Ok th =>
          match clients_manager with
          | Err _ => (Err DumpError, [])
          | Ok cm =>
              let data := to_string_pretty (snapshot th cm) in
              let mk_dir := match rsplit_once path with
                            | Some (folder, _) => [CreateDirAll folder]
                            | None => []
                            end in
              run_ops fs (mk_dir ++ fs_write path data)
          end
      end
  end.

(** [Map::remove]. *)
Fixpoint map_remove (k : string) (m : list (string * json)) : option (json * list (string * json)) :=
  match m with
  | [] => None
  | (k', v) :: m' =>
      if String.eqb k k' then Some (v, m')
      else match map_remove k m' with
           | Some (x, r) => Some (x, (k', v) :: r)
           | None => None
           end
  end.

(** What a call does: return a value, or panic. *)
Inductive Outcome (A : Type) : Type :=
| Returns (r : result A ServerErrorKind)
| Panics (msg : string).
Arguments Returns {A} r.
Arguments Panics {A} msg.

Definition unwrap_none_msg : string := "called `Option::unwrap()` on a `None` value".

Section Restore.

(** The components and their deserialisers ([serde_json::from_value]),
    and the JSON parser [serde_json::from_str]. *)
Context {TopicHandler ClientsManager : Type}.
Variable from_str : string -> result json string.
Variable topic_handler_from_value : json -> result TopicHandler string.
Variable clients_manager_from_value : json -> result ClientsManager string.

(** [Server::restore_from_json]. *)
Definition restore_from_json (json_str : string) : Outcome (TopicHandler * ClientsManager) :=
  match from_str json_str with
  | Err _ => Returns (Err DumpError)
  | Ok (JObject obj) =>
      match map_remove "topic_handler" obj with
      | None => Panics unwrap_none_msg
      | Some (topic_handler, obj) =>
          match map_remove "clients_manager" obj with
          | None => Panics unwrap_none_msg
          | Some (clients_manager, _) =>
              match topic_handler_from_value topic_handler with
              | Err _ => Returns (Err DumpError)
              | Ok th =>
                  match clients_manager_from_value clients_manager with
                  | Err _ => Returns (Err DumpError)
                  | Ok cm => Returns (Ok (th, cm))
                  end
              end
          end
      end
  | Ok _ => Panics "Invalid json"
  end.

End Restore.

End Persistence.

(** ** The accept loop ([Server::server_loop]) *)

Module AcceptLoop.

(** [accept_client]: a connection, [Idle] ([WouldBlock]) or another error. *)
Inductive AcceptResult : Type :=
| Accepted (conn : nat)
| AcceptIdle
| AcceptFailed.

(** One turn of the [while] loop: the shutdown flag as loaded, the
    accept result, [SystemTime::now()] at the dump check, and the outcome
    [Persistence.dump] has if it is called in this turn. *)
Record Turn : Type := {
  shutdown_flag : bool;
  accept : AcceptResult;
  now : nat;
  dump_result : result unit ServerErrorKind
}.

Inductive Action : Type :=
| SpawnClient (conn : nat)     (** [run_client]: a thread for the connection *)
| Sleep                        (** [thread::sleep(ACCEPT_SLEEP_DUR)] *)
| LogAcceptError
| Dumped
| Shutdown.                    (** [self.shutdown()] after the loop *)

Inductive LoopState : Type :=
| Looping                      (** the turns ran out, the loop goes on *)
| LoopReturned (r : result unit ServerErrorKind)
| LoopPanicked.

(** [server_loop] from the first turn on, with [time_last_dump] and the
    [(path, interval)] of [config.dump_info()]. Errors of [run_client] are
    logged and ignored, so a spawned connection does not stop the loop.
    [duration_since(..).unwrap()] panics when the clock went backwards.
    [shutdown_result] is what [self.shutdown()] returns when the loop
    stops: it runs on the clients manager and the topic handler, which
    are not in the sources; its result is the loop's. *)
Fixpoint server_loop (shutdown_result : result unit ServerErrorKind)
    (dump_info_opt : option (string * nat)) (time_last_dump : nat)
    (turns : list Turn) : LoopState * list Action :=
  match turns with
  | [] => (Looping, [])
  | t :: turns' =>
      if shutdown_flag t then (LoopReturned shutdown_result, [Shutdown])
      else
        match accept t with
        | AcceptFailed => (LoopReturned shutdown_result, [LogAcceptError; Shutdown])
        | a =>
            let acts := match a with
                        | Accepted c => [SpawnClient c]
                        | _ => [Sleep]
                        end in
            let continue_ (tld : nat) (extra : list Action) :=
              let (st, rest) := server_loop shutdown_result dump_info_opt tld turns' in
              (st, acts ++ extra ++ rest) in
            match dump_info_opt with
            | Some (_, interval) =>
                if (now t <? time_last_dump)%nat then (LoopPanicked, acts)
                else if (interval <=? now t - time_last_dump)%nat then
                  match dump_result t with
                  | Err e => (LoopReturned (Err e), acts)
                  | Ok _ => continue_ (now t) [Dumped]
                  end
                else continue_ time_last_dump []
            | None => continue_ time_last_dump []
            end
        end
  end.

Definition spawned (acts : list Action) : list nat :=
  flat_map (fun a => match a with SpawnClient c => [c] | _ => [] end) acts.

End AcceptLoop.

(** ** [Connect] of the shared packets crate ([src/common/packets/src/connect/mod.rs]) *)

Module CommonConnect.

(** The topic of a last will is a [TopicFilter]; its text is enough here. *)
Record LastWill : Type := {
  retain_flag : bool;
  topic : string;
  topic_message : string
}.

Record Connect : Type := {
  client_id : string;
  clean_session : bool;
  user_name : option string;
  password : option string;
  last_will : option LastWill;
  keep_alive : Z
}.

Definition is_empty (s : string) : bool :=
  match s with EmptyString => true | _ => false end.

(** [Connect::set_id]. *)
Definition set_id (self : Connect) (id : string) : Connect :=
  if is_empty (client_id self) then
    {| client_id := id; clean_session := clean_session self;
       user_name := user_name self; password := password self;
       last_will := last_will self; keep_alive := keep_alive self |}
  else self.

End CommonConnect.

(** ** Unsubscribe ([src/server/src/server_packets/unsubscribe.rs]) *)

Module UnsubscribePacket.

Definition UNSUBSCRIBE_CONTROL_PACKET_TYPE : Z := 10.
Definition FIXED_RESERVED_BITS : Z := 0x2.

(** The errors of this decoder: a kind shared with the other decoders, or
    [ErrorKind::InvalidReservedBits], which only this decoder raises. *)
Inductive UnsubscribeError : Type :=
| PacketErr (k : ErrorKind)
| InvalidReservedBits.

Record Unsubscribe : Type := {
  packet_id : Z;
  topic_filters : list (list Z)
}.

Definition verify_control_packet_type (control_byte : Z) : result unit UnsubscribeError :=
  let control_packet_type := Z.shiftr (Z.land control_byte 0xF0) 4 in
  if negb (control_packet_type =? UNSUBSCRIBE_CONTROL_PACKET_TYPE)
  then Err (PacketErr InvalidControlPacketType) else Ok tt.

Definition verify_reserved_bits (control_byte : Z) : result unit UnsubscribeError :=
  let reserved_bits := Z.land control_byte 0xF in
  if negb (reserved_bits =? FIXED_RESERVED_BITS) then Err InvalidReservedBits else Ok tt.

(** [read_packet_id]: the error of [read_exact] is ignored, so a body of
    fewer than two bytes gives id 0 (the zeroed buffer). Whether such a
    short body is consumed makes no difference afterwards: no field can be
    read from fewer than two bytes. *)
Definition read_packet_id (bytes : list Z) : Z * list Z :=
  match bytes with
  | hi :: lo :: rest => (hi * 256 + lo, rest)
  | _ => (0, bytes)
  end.

(** The [while let Some(topic_filter) = Field::new_from_stream(bytes)]
    loop. Each field takes at least two bytes, so [S (length s)] rounds
    are always enough. *)
Fixpoint read_topic_filters_go (fuel : nat) (s : list Z) (acc : list (list Z))
  : result (list (list Z)) UnsubscribeError :=
  match fuel with
  | O => Ok acc
  | S f =>
      match field_new_from_stream s with
      | None => Ok acc
      | Some (v, s') =>
          match v with
          | [] => Err (PacketErr InvalidProtocol)
          | _ :: _ => read_topic_filters_go f s' (acc ++ [v])
          end
      end
  end.

Definition read_topic_filters (s : list Z) : result (list (list Z)) UnsubscribeError :=
  match read_topic_filters_go (S (List.length s)) s [] with
  | Ok [] => Err (PacketErr InvalidProtocol)
  | r => r
  end.

(** [Unsubscribe::read_from]. *)
Definition read_from (stream : list Z) (control_byte : Z) : result Unsubscribe UnsubscribeError :=
  match verify_control_packet_type control_byte with
  | Err e => Err e
  | Ok _ =>
      match verify_reserved_bits control_byte with
      | Err e => Err e
      | Ok _ =>
          match read_remaining_bytes stream with
          | Err e => Err (PacketErr e)
          | Ok (remaining_bytes, _) =>
              let (packet_id, rest) := read_packet_id remaining_bytes in
              match read_topic_filters rest with
              | Err e => Err e
              | Ok tfs => Ok {| packet_id := packet_id; topic_filters := tfs |}
              end
          end
      end
  end.

End UnsubscribePacket.

(** ** Packet dispatch and the unsubscribe handler
    ([src/server/src/server/packet_processing.rs]) *)

Module Dispatch.
Import ClientLoop.

(** Jobs handed to the thread pool. *)
Inductive Job : Type := JobPublish | JobSubscribe | JobUnsubscribe.

Inductive Step : Type :=
| ToThreadpool (j : Job)       (** [to_threadpool] *)
| Acknowledge                  (** [client.acknowledge(puback)], synchronous *)
| SendPingResp.                (** [client.send_packet(PingResp)], synchronous *)

(** [process_packet_given_control_byte] once [PacketType::try_from]
    succeeded with [packet_type]. [decoded] is the outcome of the
    packet's [read_from] (as a [ServerError]); [act] the outcome of the
    action taken with it ([to_threadpool] or [client_do]). *)
Definition process_packet_given_type (packet_type : PacketType)
    (decoded act : result unit ServerErrorKind) : list Step * result PacketType ServerErrorKind :=
  let run (s : Step) :=
    match decoded with
    | Err e => ([], Err e)
    | Ok _ =>
        match act with
        | Err e => ([], Err e)
        | Ok _ => ([s], Ok packet_type)
        end
    end in
  match packet_type with
  | PPublish => run (ToThreadpool JobPublish)
  | PPuback => run Acknowledge
  | PSubscribe => run (ToThreadpool JobSubscribe)
  | PUnsubscribe => run (ToThreadpool JobUnsubscribe)
  | PPingReq => run SendPingResp
  | PDisconnect =>
      match decoded with
      | Err e => ([], Err e)
      | Ok _ => ([], Ok PDisconnect)
      end
  | _ => ([], Err ProtocolViolation)
  end.

(** The outcome of [process_packet] as the client loop sees it. *)
Definition read_outcome (r : result PacketType ServerErrorKind) : ReadOutcome :=
  match r with
  | Ok t => Processed t
  | Err k => Failed k
  end.

(** What [handle_unsubscribe] got done, in order. *)
Inductive UnsubEffect : Type :=
| TopicHandlerUnsubscribe (client : string) (filters : list (list Z))
| SendUnsuback (client : string) (packet_id : Z).

(** [handle_unsubscribe]: [th_result] is the outcome of
    [topic_handler.unsubscribe], [send_result] that of sending the
    [Unsuback]. *)
Definition handle_unsubscribe (unsubscribe : UnsubscribePacket.Unsubscribe) (id : string)
    (th_result send_result : result unit ServerErrorKind) : list UnsubEffect * result unit ServerErrorKind :=
  let packet_id := UnsubscribePacket.packet_id unsubscribe in
  match th_result with
  | Err e => ([], Err e)
  | Ok _ =>
      let done_ := [TopicHandlerUnsubscribe id (UnsubscribePacket.topic_filters unsubscribe)] in
      match send_result with
      | Err e => (done_, Err e)
      | Ok _ => (done_ ++ [SendUnsuback id packet_id], Ok tt)
      end
  end.

End Dispatch.

(** ** Restoring at start-up ([Server::try_restore], [src/server/src/server/dump.rs]) *)

Module PersistenceRestore.
Import Persistence.
Local Open Scope string_scope.

(** [Map::get]: the value under the key, if any. *)
Fixpoint map_get (k : string) (m : list (string * json)) : option json :=
  match m with
  | [] => None
  | (k', v) :: m' => if String.eqb k k' then Some v else map_get k m'
  end.

End PersistenceRestore.

(** ** The client's subscription list
    ([src/client/src/interface/subscription_list.rs]) *)

Module Subscriptions.
Local Open Scope string_scope.

(** A [HashMap<String, V>]: an association list; [insert] replaces the
    value of a key that is already there. *)
Fixpoint hm_remove {V : Type} (k : string) (m : list (string * V)) : option V * list (string * V) :=
  match m with
  | [] => (None, [])
  | (k', v) :: m' =>
      if String.eqb k k' then (Some v, m')
      else let (o, r) := hm_remove k m' in (o, (k', v) :: r)
  end.

Definition hm_insert {V : Type} (k : string) (v : V) (m : list (string * V)) : list (string * V) :=
  (k, v) :: snd (hm_remove k m).

Fixpoint hm_get {V : Type} (k : string) (m : list (string * V)) : option V :=
  match m with
  | [] => None
  | (k', v) :: m' => if String.eqb k k' then Some v else hm_get k m'
  end.

(** [TopicFilter] of the packets crate: a name and a QoS ([qos as u8]). *)
Record TopicFilter : Type := {
  name : string;
  tf_qos : Z
}.

(** The [gtk::Box] made by [create_sub_box]: labels "[QoS q]" and the
    topic, and a button that copies the topic into the unsubscribe entry.
    A widget is an object: [box_id] is its identity. *)
Record SubBox : Type := {
  box_id : nat;
  box_qos : Z;
  box_topic : string
}.

(** The rows of the [ListBox], in order, the [subs] map, and the next
    fresh widget identity. *)
Record SubscriptionList : Type := {
  list_rows : list SubBox;
  subs : list (string * SubBox);
  next_box : nat
}.

Definition new : SubscriptionList := {| list_rows := []; subs := []; next_box := 0 |}.

(** [self.list.remove(&row)] for the row that holds the box. *)
Definition remove_row (id : nat) (rows : list SubBox) : list SubBox :=
  filter (fun b => negb (Nat.eqb (box_id b) id)) rows.

Definition remove_sub (self : SubscriptionList) (topic : string) : SubscriptionList :=
  match hm_remove topic (subs self) with
  | (Some box_, subs') =>
      {| list_rows := remove_row (box_id box_) (list_rows self); subs := subs';
         next_box := next_box self |}
  | (None, _) => self
  end.

Definition remove_subs (self : SubscriptionList) (topics : list TopicFilter) : SubscriptionList :=
  fold_left (fun s tf => remove_sub s (name tf)) topics self.

Definition create_sub_box (self : SubscriptionList) (topic : string) (qos : Z) : SubBox :=
  {| box_id := next_box self; box_qos := qos; box_topic := topic |}.

Definition add_sub (self : SubscriptionList) (topic : string) (qos : Z) : SubscriptionList :=
  let self := remove_sub self topic in
  let box_ := create_sub_box self topic qos in
  {| list_rows := list_rows self ++ [box_];
     subs := hm_insert topic box_ (subs self);
     next_box := S (next_box self) |}.

Definition add_subs (self : SubscriptionList) (topics : list TopicFilter) : SubscriptionList :=
  fold_left (fun s tf => add_sub s (name tf) (tf_qos tf)) topics self.

(** The rows that show a topic. *)
Definition rows_of (topic : string) (l : SubscriptionList) : list SubBox :=
  filter (fun b => String.eqb (box_topic b) topic) (list_rows l).

(** What [add_sub] and [remove_sub] keep: one entry per topic, each
    holding a box of its topic, the rows are exactly the boxes of the map,
    widget identities are distinct and below the next fresh one. *)
Definition inv (l : SubscriptionList) : Prop :=
  NoDup (map fst (subs l)) /\
  (forall k b, In (k, b) (subs l) -> box_topic b = k) /\
  (forall b, In b (list_rows l) <-> exists k, In (k, b) (subs l)) /\
  NoDup (map box_id (list_rows l)) /\
  (forall b, In b (list_rows l) -> (box_id b < next_box l)%nat).

End Subscriptions.

(** ** The client's observer ([src/client/src/interface/client_observer.rs]
    and the [InterfaceUtils] of [src/client/src/interface/utils.rs]) *)

Module Observer.
Import Subscriptions.
Local Open Scope string_scope.

Inductive Icon : Type := IconOk | IconError | IconLoading.

(** [From<Icon> for &str]. *)
Definition icon_name (icon : Icon) : string :=
  match icon with
  | IconOk => "ok"
  | IconError => "error"
  | IconLoading => "loading"
  end.

(** The widgets the observer touches. *)
Record Ui : Type := {
  content_sensitive : bool;          (** the "content" stack *)
  discon_sensitive : bool;           (** the "discon_btn" button *)
  content_page : string;             (** visible child of "content" *)
  status_icon : string;              (** visible child of "status_icon" *)
  status_label : string;
  info_visible : bool;               (** "info_box" *)
  info_text : string;                (** "connection_info" *)
  feed : list (string * string * Z); (** rows of "sub_msgs": topic, payload, qos *)
  sub_list : SubscriptionList;
  alerts : list string               (** modal error dialogs shown *)
}.

Definition sensitive (ui : Ui) (b : bool) : Ui :=
  {| content_sensitive := b; discon_sensitive := b; content_page := content_page ui;
     status_icon := status_icon ui; status_label := status_label ui;
     info_visible := info_visible ui; info_text := info_text ui; feed := feed ui;
     sub_list := sub_list ui; alerts := alerts ui |}.

Definition icon (ui : Ui) (i : Icon) : Ui :=
  {| content_sensitive := content_sensitive ui; discon_sensitive := discon_sensitive ui;
     content_page := content_page ui; status_icon := icon_name i;
     status_label := status_label ui; info_visible := info_visible ui;
     info_text := info_text ui; feed := feed ui; sub_list := sub_list ui;
     alerts := alerts ui |}.

Definition status_message (ui : Ui) (msg : string) : Ui :=
  {| content_sensitive := content_sensitive ui; discon_sensitive := discon_sensitive ui;
     content_page := content_page ui; status_icon := status_icon ui;
     status_label := msg; info_visible := info_visible ui;
     info_text := info_text ui; feed := feed ui; sub_list := sub_list ui;
     alerts := alerts ui |}.

Definition connection_info (ui : Ui) (msg : option string) : Ui :=
  {| content_sensitive := content_sensitive ui; discon_sensitive := discon_sensitive ui;
     content_page := content_page ui; status_icon := status_icon ui;
     status_label := status_label ui;
     info_visible := match msg with Some _ => true | None => false end;
     info_text := match msg with Some t => t | None => info_text ui end;
     feed := feed ui; sub_list := sub_list ui;
     alerts := alerts ui |}.

Definition show_content_menu (ui : Ui) : Ui :=
  let ui := {| content_sensitive := content_sensitive ui; discon_sensitive := discon_sensitive ui;
               content_page := "box_connected"; status_icon := status_icon ui;
               status_label := status_label ui; info_visible := info_visible ui;
               info_text := info_text ui; feed := feed ui; sub_list := sub_list ui;
               alerts := alerts ui |} in
  sensitive ui true.

Definition set_sub_list (ui : Ui) (l : SubscriptionList) : Ui :=
  {| content_sensitive := content_sensitive ui; discon_sensitive := discon_sensitive ui;
     content_page := content_page ui; status_icon := status_icon ui;
     status_label := status_label ui; info_visible := info_visible ui;
     info_text := info_text ui; feed := feed ui; sub_list := l;
     alerts := alerts ui |}.

(** The messages of the client ([observer::Message]); the packets are
    reduced to what the observer reads, a [ClientError] to its display. *)
Inductive Message : Type :=
| MPublish (topic_name : string) (payload : option string) (qos : Z)
| MConnected (r : result unit string)
| MPublished (r : result unit string)
| MSubscribed (r : result (list TopicFilter) string)     (** [Suback::topics] *)
| MUnsubscribed (r : result (list TopicFilter) string)   (** [Unsuback::topics] *)
| MInternalError (error : string).

Definition subscribed (ui : Ui) (r : result (list TopicFilter) string) : Ui :=
  let ui := sensitive ui true in
  match r with
  | Ok topics =>
      let ui := status_message (icon ui IconOk) "Suscrito" in
      set_sub_list ui (add_subs (sub_list ui) topics)
  | Err e => status_message (icon ui IconError) ("No se pudo suscribir: " ++ e)
  end.

Definition published (ui : Ui) (r : result unit string) : Ui :=
  let ui := sensitive ui true in
  match r with
  | Err e => status_message (icon ui IconError) ("No se pudo publicar: " ++ e)
  | Ok _ => status_message (icon ui IconOk) "Publicado"
  end.

Definition add_publish (ui : Ui) (topic_name : string) (payload : option string) (qos : Z) : Ui :=
  {| content_sensitive := content_sensitive ui; discon_sensitive := discon_sensitive ui;
     content_page := content_page ui; status_icon := status_icon ui;
     status_label := status_label ui; info_visible := info_visible ui;
     info_text := info_text ui;
     feed := feed ui ++ [(topic_name, match payload with Some p => p | None => "" end, qos)];
     sub_list := sub_list ui; alerts := alerts ui |}.

Definition connected (ui : Ui) (r : result unit string) : Ui :=
  match r with
  | Err e =>
      let ui := sensitive (connection_info ui None) true in
      status_message (icon ui IconError) ("No se pudo conectar: " ++ e)
  | Ok _ => status_message (icon (show_content_menu ui) IconOk) "Conectado"
  end.

Definition unsubscribed (ui : Ui) (r : result (list TopicFilter) string) : Ui :=
  let ui := sensitive ui true in
  match r with
  | Ok topics =>
      let ui := status_message (icon ui IconOk) "Desuscrito" in
      set_sub_list ui (remove_subs (sub_list ui) topics)
  | Err e => status_message (icon ui IconError) ("No se pudo desuscribir: " ++ e)
  end.

Definition nl : string := String (ascii_of_nat 10) EmptyString.

(** [alert(..)]: a modal error dialog. *)
Definition alert (ui : Ui) (message : string) : Ui :=
  {| content_sensitive := content_sensitive ui; discon_sensitive := discon_sensitive ui;
     content_page := content_page ui; status_icon := status_icon ui;
     status_label := status_label ui; info_visible := info_visible ui;
     info_text := info_text ui; feed := feed ui; sub_list := sub_list ui;
     alerts := alerts ui ++ [message] |}.

Section Receiver.

(** The handler of the "clicked" signal of "discon_btn": it is connected
    outside the sources, so it is left open. *)
Variable on_discon_clicked : Ui -> Ui.

(** The [Message::InternalError] arm: [alert] then [dis.clicked()], which
    runs the disconnect button's handler. *)
Definition internal_error (ui : Ui) (error : string) : Ui :=
  on_discon_clicked
    (alert ui ("Error interno: " ++ error ++ nl ++ nl ++ "Se recomienda reiniciar el cliente")).

Definition message_receiver (ui : Ui) (message : Message) : Ui :=
  match message with
  | MPublish t p q => add_publish ui t p q
  | MConnected r => connected ui r
  | MPublished r => published ui r
  | MSubscribed r => subscribed ui r
  | MUnsubscribed r => unsubscribed ui r
  | MInternalError e => internal_error ui e
  end.

End Receiver.

(** Whether a message reports the result of an operation, and if so
    whether it succeeded. *)
Definition result_of (message : Message) : option bool :=
  match message with
  | MConnected (Ok _) | MPublished (Ok _) | MSubscribed (Ok _) | MUnsubscribed (Ok _) => Some true
  | MConnected (Err _) | MPublished (Err _) | MSubscribed (Err _) | MUnsubscribed (Err _) => Some false
  | _ => None
  end.

End Observer.

(** ** Concrete inputs *)

Definition mqtt_field : list Z := field_encode (bytes_of_string "MQTT").
Definition id_field : list Z := field_encode (bytes_of_string "id").

(** A Connect body with flags byte [0x03]: reserved bit and clean session. *)
Definition reserved_body : list Z := mqtt_field ++ [4; 0x03; 0; 60] ++ id_field.

(** A Connect body with one byte left after the client id. *)
Definition extra_byte_body : list Z := mqtt_field ++ [4; 0; 0; 60] ++ id_field ++ [7].

Definition sample_publish : PublishHandling.Publish :=
  {| PublishHandling.dup := false; PublishHandling.qos := 2; PublishHandling.retain := false;
     PublishHandling.topic_name := "sensors/room1/temp"%string; PublishHandling.packet_id := Some 10;
     PublishHandling.payload := bytes_of_string "21.5" |}.

(** A file system holding an earlier dump. *)
Definition fs_old_dump : Persistence.FileSystem :=
  {| Persistence.contents := fun p => if String.eqb p "dumps/state.json" then Some "old"%string else None;
     Persistence.dirs := fun d => String.eqb d "dumps";
     Persistence.read_only := fun _ => false |}.

(** A key is present in a JSON object. *)
Definition has_key (k : string) (m : list (string * Persistence.json)) : bool :=
  existsb (fun kv => String.eqb k (fst kv)) m.

(** An interface showing the connected menu, with an empty subscription
    list. *)
Definition sample_ui : Observer.Ui :=
  {| Observer.content_sensitive := false; Observer.discon_sensitive := false;
     Observer.content_page := "box_connected"%string; Observer.status_icon := "loading"%string;
     Observer.status_label := "Suscribiendo"%string; Observer.info_visible := true;
     Observer.info_text := "localhost:1883"%string; Observer.feed := [];
     Observer.sub_list := Subscriptions.new; Observer.alerts := [] |}.

(** ** Predicates of the further properties *)

(** The MQTT encoding of a remaining length, seven bits per byte, least
    significant group first, bit 7 set on every byte but the last: the
    encoding [decode_remaining_length] reads, used to build packets. *)
Fixpoint encode_length_go (fuel : nat) (n : Z) : list Z :=
  match fuel with
  | O => []
  | S f => if n / 128 =? 0 then [n mod 128] else (n mod 128 + 128) :: encode_length_go f (n / 128)
  end.

Definition encode_remaining_length (n : Z) : list Z := encode_length_go 4 n.

Section UnsubscribeInputs.
Import UnsubscribePacket.

(** A topic filter as a client may send it. *)
Definition valid_filter (v : list Z) : Prop :=
  v <> [] /\ utf8_valid v = true /\ existsb (Z.eqb 0) v = false /\ Z.of_nat (List.length v) < 65536.

End UnsubscribeInputs.

Section ConnectInputs.
Import ServerConnect.

(** A length-prefixed field as a client may send it. *)
Definition valid_field (v : list Z) : Prop :=
  utf8_valid v = true /\ existsb (Z.eqb 0) v = false /\ Z.of_nat (List.length v) < 65536.

(** The body of a Connect packet with flags byte [f], keep alive bytes
    [hi lo], and the fields that the flags announce. *)
Definition connect_body (f hi lo : Z) (cid t m u p : list Z) : list Z :=
  mqtt_field ++ [4; f; hi; lo] ++ field_encode cid
  ++ (if flag f WILL_FLAG then field_encode t ++ field_encode m else [])
  ++ (if flag f USERNAME_FLAG then field_encode u else [])
  ++ (if flag f PASSWORD_FLAG then field_encode p else []).

End ConnectInputs.

Section ClientLoopInputs.
Import ClientLoop.

(** A read that timed out. *)
Definition is_timeout_event (ev : Event) : bool :=
  match ev_read ev with Failed k => is_timeout k | Processed _ => false end.

End ClientLoopInputs.

Section AcceptLoopInputs.
Import AcceptLoop.

(** A turn in which the loop neither stops nor fails to accept. *)
Definition ordinary (t : Turn) : Prop := shutdown_flag t = false /\ accept t <> AcceptFailed.

Definition turn_action (t : Turn) : Action :=
  match accept t with Accepted c => SpawnClient c | _ => Sleep end.

End AcceptLoopInputs.

(** * Properties *)

(** ** Helper facts *)

Lemma land_odd_nonzero (f : Z) : Z.testbit f 0 = true -> Z.land f 1 <> 0.
Proof.
  intros Hb Hl.
  assert (Z.testbit (Z.land f 1) 0 = true) as Ht.
  { rewrite Z.land_spec, Hb. reflexivity. }
  rewrite Hl in Ht. discriminate.
Qed.

(** A property of bytes is checked by running it on all 256 of them. *)
Lemma all_bytes (P : Z -> bool) :
  forallb P (map Z.of_nat (seq 0 256)) = true -> forall b, 0 <= b < 256 -> P b = true.
Proof.
  intros Hall b Hb.
  rewrite forallb_forall in Hall. apply Hall.
  apply in_map_iff. exists (Z.to_nat b). split.
  - apply Z2Nat.id. lia.
  - apply in_seq. lia.
Qed.

Lemma varint_go_nonneg fuel mult acc s len rest :
  0 <= mult -> 0 <= acc -> varint_go fuel mult acc s = Ok (len, rest) -> 0 <= len.
Proof.
  revert mult acc s. induction fuel as [|f IH]; intros mult acc s Hm Ha H; simpl in H.
  - discriminate.
  - destruct s as [|b r]; [discriminate|].
    assert (0 <= Z.land b 127) by (apply Z.land_nonneg; lia).
    destruct (Z.land b 128 =? 0).
    + injection H as <- _. nia.
    + eapply IH; [| |exact H]; nia.
Qed.

Lemma decode_remaining_length_nonneg s len rest :
  decode_remaining_length s = Ok (len, rest) -> 0 <= len.
Proof. unfold decode_remaining_length. apply varint_go_nonneg; lia. Qed.


(** ** Helper facts on the byte readers *)

Lemma firstn_length_app {A} (v r : list A) : firstn (List.length v) (v ++ r) = v.
Proof. induction v as [|x v IH]; simpl; [reflexivity|now rewrite IH]. Qed.

Lemma skipn_length_app {A} (v r : list A) : skipn (List.length v) (v ++ r) = r.
Proof. induction v as [|x v IH]; simpl; [reflexivity|exact IH]. Qed.

Lemma read_exact_app (v r : list Z) : read_exact (List.length v) (v ++ r) = Ok (v, r).
Proof.
  unfold read_exact. rewrite length_app.
  replace (List.length v <=? List.length v + List.length r)%nat with true
    by (symmetry; apply Nat.leb_le; lia).
  now rewrite firstn_length_app, skipn_length_app.
Qed.

Lemma field_header_value (n : Z) : 0 <= n -> Z.shiftr n 8 * 256 + Z.land n 255 = n.
Proof.
  intros Hn. rewrite Z.shiftr_div_pow2 by lia. change 255 with (Z.ones 8).
  rewrite Z.land_ones by lia. change (2 ^ 8) with 256.
  pose proof (Z.div_mod n 256). lia.
Qed.

(** A valid field reads back as written. *)
Lemma field_roundtrip (v rest : list Z) :
  utf8_valid v = true -> existsb (Z.eqb 0) v = false -> Z.of_nat (List.length v) < 65536 ->
  field_new_from_stream (field_encode v ++ rest) = Some (v, rest).
Proof.
  intros Hu Hz Hlen. unfold field_encode, field_new_from_stream. cbn [app].
  rewrite field_header_value by lia. rewrite Nat2Z.id, length_app.
  replace (List.length v <=? List.length v + List.length rest)%nat with true
    by (symmetry; apply Nat.leb_le; lia).
  rewrite firstn_length_app, skipn_length_app, Hu, Hz. reflexivity.
Qed.

Lemma read_field_roundtrip (v rest : list Z) :
  utf8_valid v = true -> existsb (Z.eqb 0) v = false -> Z.of_nat (List.length v) < 65536 ->
  read_field (field_encode v ++ rest) = Ok (v, rest).
Proof. intros. unfold read_field. now rewrite field_roundtrip. Qed.

Lemma field_new_from_stream_valid (s v s' : list Z) :
  field_new_from_stream s = Some (v, s') ->
  utf8_valid v = true /\ existsb (Z.eqb 0) v = false /\ (List.length s' + 2 <= List.length s)%nat.
Proof.
  unfold field_new_from_stream. destruct s as [|hi [|lo r]]; try discriminate.
  destruct (Z.to_nat (hi * 256 + lo) <=? List.length r)%nat eqn:El; [|discriminate].
  destruct (utf8_valid (firstn (Z.to_nat (hi * 256 + lo)) r)) eqn:Eu; [|discriminate].
  destruct (existsb (Z.eqb 0) (firstn (Z.to_nat (hi * 256 + lo)) r)) eqn:Ez; [discriminate|].
  cbn. intros H. injection H as <- <-.
  split; [exact Eu|]. split; [exact Ez|]. rewrite length_skipn. cbn [List.length]. lia.
Qed.

(** A one-byte remaining length. *)
Lemma small_len_byte (n : Z) : 0 <= n < 128 -> Z.land n 128 = 0 /\ Z.land n 127 = n.
Proof.
  intros Hn.
  pose proof (all_bytes (fun b => negb (b <? 128) || ((Z.land b 128 =? 0) && (Z.land b 127 =? b)))
                ltac:(vm_compute; reflexivity) n ltac:(lia)) as H.
  cbn beta in H. replace (n <? 128) with true in H by (symmetry; apply Z.ltb_lt; lia).
  cbn [negb orb] in H. apply andb_true_iff in H as [H1 H2].
  split; apply Z.eqb_eq; assumption.
Qed.

Lemma big_len_byte (n : Z) :
  128 <= n < 256 -> (Z.land n 128 =? 0) = false /\ Z.land n 127 = n - 128.
Proof.
  intros Hn.
  pose proof (all_bytes (fun b => (b <? 128) || (negb (Z.land b 128 =? 0) && (Z.land b 127 =? b - 128)))
                ltac:(vm_compute; reflexivity) n ltac:(lia)) as H.
  cbn beta in H. replace (n <? 128) with false in H by (symmetry; apply Z.ltb_ge; lia).
  cbn [orb] in H. apply andb_true_iff in H as [H1 H2].
  split; [apply negb_true_iff, H1|apply Z.eqb_eq, H2].
Qed.

Lemma varint_go_last (fuel : nat) (mult acc n : Z) (rest : list Z) :
  0 <= n < 128 -> varint_go (S fuel) mult acc (n :: rest) = Ok (acc + n * mult, rest).
Proof.
  intros Hn. destruct (small_len_byte n Hn) as [H1 H2].
  cbn [varint_go]. rewrite H1, H2. reflexivity.
Qed.

Lemma encode_length_small (fuel : nat) (n : Z) : 0 <= n < 128 -> encode_length_go (S fuel) n = [n].
Proof.
  intros Hn. cbn [encode_length_go].
  rewrite (Z.div_small n 128), (Z.mod_small n 128) by lia. reflexivity.
Qed.

Lemma encode_length_go_S (fuel : nat) (n : Z) :
  encode_length_go (S fuel) n
  = if n / 128 =? 0 then [n mod 128] else (n mod 128 + 128) :: encode_length_go fuel (n / 128).
Proof. reflexivity. Qed.

Lemma varint_go_cons (fuel : nat) (mult acc b : Z) (r : list Z) :
  varint_go (S fuel) mult acc (b :: r)
  = if Z.land b 128 =? 0 then Ok (acc + Z.land b 127 * mult, r)
    else varint_go fuel (mult * 128) (acc + Z.land b 127 * mult) r.
Proof. reflexivity. Qed.

(** [decode_remaining_length] reads back what [encode_length_go] writes. *)
Lemma varint_go_encode (fuel : nat) (mult acc n : Z) (rest : list Z) :
  0 <= n < 128 ^ Z.of_nat (S fuel) ->
  varint_go (S fuel) mult acc (encode_length_go (S fuel) n ++ rest) = Ok (acc + n * mult, rest).
Proof.
  revert mult acc n. induction fuel as [|f IH]; intros mult acc n Hn.
  - change (128 ^ Z.of_nat 1) with 128 in Hn.
    rewrite encode_length_small by lia. apply varint_go_last. lia.
  - destruct (Z.lt_ge_cases n 128) as [Hs|Hb].
    + rewrite encode_length_small by lia. apply varint_go_last. lia.
    + pose proof (Z.div_mod n 128 ltac:(lia)) as Hdm.
      pose proof (Z.mod_pos_bound n 128 ltac:(lia)) as Hmb.
      rewrite encode_length_go_S.
      replace (n / 128 =? 0) with false by (symmetry; apply Z.eqb_neq; lia).
      destruct (big_len_byte (n mod 128 + 128) ltac:(lia)) as [H1 H2].
      rewrite <- app_comm_cons, varint_go_cons, H1, H2.
      rewrite IH.
      * f_equal. f_equal.
        replace (n * mult) with ((128 * (n / 128) + n mod 128) * mult) by (rewrite <- Hdm; reflexivity).
        ring.
      * rewrite Nat2Z.inj_succ, Z.pow_succ_r in Hn by lia.
        split; [apply Z.div_pos; lia|]. apply Z.div_lt_upper_bound; lia.
Qed.

Lemma decode_encode_length (n : Z) (rest : list Z) :
  0 <= n < 268435456 ->
  decode_remaining_length (encode_remaining_length n ++ rest) = Ok (n, rest).
Proof.
  intros Hn. unfold decode_remaining_length, encode_remaining_length.
  rewrite varint_go_encode by (change (128 ^ Z.of_nat 4) with 268435456; lia).
  f_equal. f_equal. ring.
Qed.

Lemma encode_remaining_length_split (n : Z) (rest : list Z) :
  hd 0 (encode_remaining_length n) :: tl (encode_remaining_length n) ++ rest
  = encode_remaining_length n ++ rest.
Proof. unfold encode_remaining_length. cbn [encode_length_go]. destruct (n / 128 =? 0); reflexivity. Qed.

Lemma read_remaining_bytes_encoded (body next : list Z) :
  Z.of_nat (List.length body) < 268435456 ->
  read_remaining_bytes (encode_remaining_length (Z.of_nat (List.length body)) ++ body ++ next)
  = Ok (body, next).
Proof.
  intros Hl. unfold read_remaining_bytes. rewrite decode_encode_length by lia.
  rewrite Nat2Z.id. apply read_exact_app.
Qed.

(** ** The Connect decoder *)

Section ConnectClaims.
Import ServerConnect.

Lemma verify_protocol_mqtt rest : verify_protocol (mqtt_field ++ rest) = Ok (tt, rest).
Proof. reflexivity. Qed.

Lemma new_protocol_name_mismatch (h : Z * Z) (stream body srest : list Z) (v rest : list Z) :
  read_packet_bytes h stream = Ok (body, srest) ->
  body = field_encode v ++ rest -> valid_field v -> v <> bytes_of_string "MQTT" ->
  new h stream = Err InvalidProtocol.
Proof.
  intros Hread -> Hv Hne. unfold new. rewrite Hread. cbv iota beta.
  unfold connect_fields, bind at 1, verify_protocol.
  destruct Hv as (Hu & Hz & Hl). rewrite field_roundtrip by assumption.
  destruct (list_eq_dec Z.eq_dec v (bytes_of_string "MQTT")) as [E|E]; [contradiction|].
  reflexivity.
Qed.


(** C3: decoding of a Connect packet with the will flag set and the
    will-QoS bits carrying the wire value 2 (flags byte [0x14]): the packet
    is accepted, and the stored last-will QoS is [QoSLevel0], not
    [QoSLevel1]: [get_will] only looks at bit 3 ([WILL_QOS_0]). *)
Lemma will_qos2_decodes_to_level0 :
  decode (mqtt_field ++ [4; 0x14; 0; 60] ++ id_field
          ++ field_encode (bytes_of_string "t") ++ field_encode (bytes_of_string "m"))
  = Ok {| client_id := bytes_of_string "id"; clean_session := false;
          user_name := None; password := None;
          last_will := Some {| retain := false; qos := QoSLevel0;
                               topic := bytes_of_string "t";
                               message := bytes_of_string "m" |};
          keep_alive := 60 |}.
Proof. vm_compute. reflexivity. Qed.

(** C7 (counterexample): a Connect packet whose flags byte [0x01] has the
    reserved bit set but whose protocol level is 3 fails with
    [InvalidProtocolLevel], not [InvalidFlags]. *)
Lemma reserved_bit_with_bad_level_not_invalid_flags :
  decode (mqtt_field ++ [3; 0x01; 0; 60] ++ id_field) = Err InvalidProtocolLevel.
Proof. vm_compute. reflexivity. Qed.

(** C7 (amended): when the protocol name is "MQTT" and the level is 4, a
    flags byte with bit 0 set makes decoding fail with [InvalidFlags]; with
    any other level, decoding fails with [InvalidProtocolLevel], and with
    another (valid UTF-8) protocol name it fails with [InvalidProtocol],
    before the flags byte is looked at. No Connect value is produced in
    any of these cases. *)
Lemma reserved_bit_rejected h stream body srest :
  read_packet_bytes h stream = Ok (body, srest) ->
  (forall f rest, body = mqtt_field ++ 4 :: f :: rest -> Z.testbit f 0 = true ->
     new h stream = Err InvalidFlags) /\
  (forall lv rest, body = mqtt_field ++ lv :: rest -> lv <> PROTOCOL_LEVEL ->
     new h stream = Err InvalidProtocolLevel) /\
  (forall v rest, body = field_encode v ++ rest -> valid_field v -> v <> bytes_of_string "MQTT" ->
     new h stream = Err InvalidProtocol).
Proof.
  intros Hread. split; [|split].
  - unfold new. rewrite Hread. intros f rest -> Hbit.
    unfold connect_fields, bind at 1. rewrite verify_protocol_mqtt.
    cbn -[Z.land].
    unfold bind, get_flags, read_byte, flag, fail.
    destruct (Z.land f RESERVED =? 0) eqn:E.
    + apply Z.eqb_eq in E. exfalso. exact (land_odd_nonzero f Hbit E).
    + unfold bind. cbn -[Z.land RESERVED]. rewrite E. reflexivity.
  - unfold new. rewrite Hread. intros lv rest -> Hlv.
    unfold connect_fields, bind at 1. rewrite verify_protocol_mqtt.
    cbn -[PROTOCOL_LEVEL].
    unfold bind, verify_protocol_level, read_byte, fail, ret.
    destruct (lv =? PROTOCOL_LEVEL) eqn:E.
    + apply Z.eqb_eq in E. contradiction.
    + unfold bind. cbn -[PROTOCOL_LEVEL]. rewrite E. reflexivity.
  - intros v rest Hb Hv Hne.
    exact (new_protocol_name_mismatch h stream body srest v rest Hread Hb Hv Hne).
Qed.

(** C9: [Connect::new] succeeds exactly when parsing the fields consumes
    the whole body read from the declared remaining length; when at least
    one byte of the body is left after the fields, it fails. *)
Lemma connect_new_requires_exact_body h stream body srest :
  read_packet_bytes h stream = Ok (body, srest) ->
  (forall c rest, connect_fields body = Ok (c, rest) -> rest <> [] ->
     exists e, new h stream = Err e) /\
  (forall c, new h stream = Ok c <-> connect_fields body = Ok (c, [])).
Proof.
  intros Hread. unfold new. rewrite Hread. split.
  - intros c rest Hf Hne. rewrite Hf.
    destruct rest as [|b r]; [contradiction|]. eauto.
  - intros c. destruct (connect_fields body) as [[c' rest]|e].
    + destruct rest as [|b r].
      * split; intros H; injection H as ->; reflexivity.
      * split; intros H; discriminate.
    + split; intros H; discriminate.
Qed.

End ConnectClaims.

(** ** PingReq *)

Section PingReqClaims.
Import PingReqPacket.

Lemma pingreq_type_nibble cb :
  0 <= cb < 256 -> (Z.land cb PACKET_TYPE_MASK =? PINGREQ_PACKET_TYPE) = (Z.shiftr cb 4 =? 12).
Proof.
  intros Hb. apply Bool.eqb_prop.
  apply (all_bytes (fun b => Bool.eqb (Z.land b PACKET_TYPE_MASK =? PINGREQ_PACKET_TYPE)
                                       (Z.shiftr b 4 =? 12))); [vm_compute; reflexivity | exact Hb].
Qed.

Lemma pingreq_flags_nibble cb :
  0 <= cb < 256 -> (Z.land cb RESERVED_BYTES_MASK =? RESERVED_BYTES) = (cb mod 16 =? 0).
Proof.
  intros Hb. apply Bool.eqb_prop.
  apply (all_bytes (fun b => Bool.eqb (Z.land b RESERVED_BYTES_MASK =? RESERVED_BYTES)
                                       (b mod 16 =? 0))); [vm_compute; reflexivity | exact Hb].
Qed.

(** C8: for a control byte [cb], [PingReq::read_from] returns [Ok] exactly
    when the upper nibble of [cb] is 12, its lower nibble is 0 and the
    remaining length read from the stream is 0; a wrong packet type fails
    with [InvalidControlPacketType]; nonzero reserved flags or a nonzero
    remaining length fail. *)
Lemma pingreq_read_from_ok_iff stream cb :
  0 <= cb < 256 ->
  (read_from stream cb = Ok mkPingReq <->
     Z.shiftr cb 4 = 12 /\ cb mod 16 = 0 /\
     exists rest, decode_remaining_length stream = Ok (0, rest)) /\
  (Z.shiftr cb 4 <> 12 -> read_from stream cb = Err InvalidControlPacketType) /\
  (cb mod 16 <> 0 -> exists e, read_from stream cb = Err e) /\
  (forall len rest, decode_remaining_length stream = Ok (len, rest) -> len <> 0 ->
     exists e, read_from stream cb = Err e).
Proof.
  intros Hb.
  pose proof (pingreq_type_nibble cb Hb) as Ht.
  pose proof (pingreq_flags_nibble cb Hb) as Hf.
  unfold read_from, check_packet_type, check_reserved_bytes.
  rewrite Ht, Hf.
  destruct (Z.eqb_spec (Z.shiftr cb 4) 12) as [E1|E1];
    destruct (Z.eqb_spec (cb mod 16) 0) as [E2|E2]; cbn [negb].
  - unfold read_remaining_bytes.
    destruct (decode_remaining_length stream) as [[len s']|e] eqn:Ed.
    + pose proof (decode_remaining_length_nonneg _ _ _ Ed) as Hnn.
      unfold read_exact.
      destruct (Z.to_nat len <=? List.length s')%nat eqn:El.
      * apply Nat.leb_le in El.
        destruct (firstn (Z.to_nat len) s') as [|x xs] eqn:Efx.
        -- assert (len = 0) as ->.
           { destruct (Z.to_nat len) eqn:Hn.
             - lia.
             - destruct s' as [|y ys]; simpl in El; [lia|]. discriminate. }
           split; [split; [intros _; repeat split; eauto | intros _; reflexivity]|].
           split; [intros; contradiction|]. split; [intros; contradiction|].
           intros len' rest' Hd Hne. injection Hd as <- _. contradiction.
        -- assert (len <> 0) as Hlen.
           { intros ->. discriminate. }
           split; [split; [discriminate | intros (_ & _ & rest & Hr); injection Hr as Hr _; lia]|].
           split; [intros; contradiction|]. split; [intros; contradiction|].
           intros. eauto.
      * assert (len <> 0) as Hlen.
        { intros ->. apply Nat.leb_gt in El. simpl in El. lia. }
        split; [split; [discriminate | intros (_ & _ & rest & Hr); injection Hr as Hr _; lia]|].
        split; [intros; contradiction|]. split; [intros; contradiction|].
        intros. eauto.
    + split; [split; [discriminate | intros (_ & _ & rest & Hr); discriminate]|].
      split; [intros; contradiction|]. split; [intros; contradiction|].
      intros. eauto.
  - split; [split; [discriminate | intros (_ & H2 & _); contradiction]|].
    split; [intros; contradiction|]. split; [intros; eauto|]. intros. eauto.
  - split; [split; [discriminate | intros (H1 & _); contradiction]|].
    split; [intros; reflexivity|]. split; [intros; eauto|]. intros. eauto.
  - split; [split; [discriminate | intros (H1 & _); contradiction]|].
    split; [intros; reflexivity|]. split; [intros; eauto|]. intros. eauto.
Qed.

End PingReqClaims.

(** ** Publish handling *)

Section PublishClaims.
Import PublishHandling.

(** C5: [handle_publish] lowers the QoS to at most 1 (QoS 2 becomes 1,
    lower levels are kept); it sends a [Puback] carrying the packet id
    back to the publisher exactly when the publish has a packet id, which
    for a well-formed publish is exactly when the lowered QoS is above 0;
    then it broadcasts the lowered publish and returns what the broadcast
    returned. If the [Puback] cannot be sent, the handler stops with that
    error before broadcasting. *)
Lemma handle_publish_puback_then_broadcast p id :
  well_formed p ->
  let p' := set_max_qos p QoSLevel1 in
  qos p' <= 1 /\ (qos p <= 1 -> qos p' = qos p) /\ (qos p = 2 -> qos p' = 1) /\
  (packet_id p' <> None <-> 0 < qos p') /\
  (forall pid, packet_id p = Some pid -> forall broadcast,
     handle_publish p id (Ok tt) broadcast = ([SendPuback id pid; Broadcast p'], broadcast) /\
     forall e, handle_publish p id (Err e) broadcast = ([SendPuback id pid], Err e)) /\
  (packet_id p = None -> forall puback_sent broadcast,
     handle_publish p id puback_sent broadcast = ([Broadcast p'], broadcast)).
Proof.
  intros [Hq Hid] p'.
  assert (qos p' = Z.min (qos p) 1) as Hq' by reflexivity.
  assert (packet_id p' = packet_id p) as Hpid by reflexivity.
  split; [lia|]. split; [lia|]. split; [lia|].
  split.
  - rewrite Hpid, Hid. lia.
  - split.
    + intros pid Hp br. unfold handle_publish. fold p'. rewrite Hpid, Hp.
      split; [reflexivity|]. intros e. reflexivity.
    + intros Hp pr br. unfold handle_publish. fold p'. rewrite Hpid, Hp. reflexivity.
Qed.

End PublishClaims.

(** ** The connected-client loop *)

Section ClientLoopClaims.
Import ClientLoop.

(** C6: after a read that fails with [Timeout] (and a successful
    [send_unacknowledged]), the loop has called [send_unacknowledged] with
    the minimum elapsed time of 2000 ms and returns [Ok(false)]
    (ungraceful disconnect) iff a keep-alive is set and the time since the
    last successfully processed packet exceeds it; otherwise it goes on
    with the same last activity. A successfully processed packet other
    than [Disconnect] resets the last activity. *)
Lemma timeout_resends_and_checks_keep_alive keep_alive_opt last now evs :
  (last <= now)%nat ->
  MIN_ELAPSED_TIME = Some 2000%nat /\
  client_loop keep_alive_opt last
    ({| ev_now := now; ev_read := Failed Timeout; ev_resend_ok := true |} :: evs)
  = (if keep_alive_exceeded keep_alive_opt last now
     then (Returned (Ok false), [SendUnacknowledged (Some 2000%nat)])
     else let (o, cs) := client_loop keep_alive_opt last evs in
          (o, SendUnacknowledged (Some 2000%nat) :: cs)) /\
  gracefully (Returned (Ok false)) = Some false /\
  (forall t now' ok evs', is_disconnect t = false ->
     client_loop keep_alive_opt last
       ({| ev_now := now'; ev_read := Processed t; ev_resend_ok := ok |} :: evs')
     = client_loop keep_alive_opt now' evs').
Proof.
  intros Hle. split; [reflexivity|]. split.
  - simpl. destruct keep_alive_opt as [k|]; [|reflexivity].
    unfold duration_since, keep_alive_exceeded.
    apply Nat.leb_le in Hle. rewrite Hle. reflexivity.
  - split; [reflexivity|].
    intros t now' ok evs' Ht. simpl. rewrite Ht. reflexivity.
Qed.

End ClientLoopClaims.

(** ** [Connect::set_id] *)

Section SetIdClaims.
Import CommonConnect.

(** C10: [set_id] replaces the client id when it is empty and leaves the
    whole [Connect] unchanged otherwise. *)
Lemma set_id_only_when_empty (c : Connect) (id : string) :
  (client_id c = EmptyString ->
     set_id c id = {| client_id := id; clean_session := clean_session c;
                      user_name := user_name c; password := password c;
                      last_will := last_will c; keep_alive := keep_alive c |}) /\
  (client_id c <> EmptyString -> set_id c id = c).
Proof.
  unfold set_id. split.
  - intros ->. reflexivity.
  - intros Hne. destruct (client_id c) eqn:E; [contradiction|reflexivity].
Qed.

End SetIdClaims.

(** ** Persistence *)

Section PersistenceClaims.
Import Persistence.
Local Open Scope string_scope.

Lemma update_at fs p v : contents (update fs p v) p = v.
Proof. unfold update. simpl. rewrite String.eqb_refl. reflexivity. Qed.

Lemma update_other fs p q v : q <> p -> contents (update fs p v) q = contents fs q.
Proof.
  intros Hne. unfold update. simpl.
  destruct (String.eqb_spec q p); [contradiction|reflexivity].
Qed.

Lemma fs_write_run fs path data :
  (forall p, read_only fs p = false) -> parent_missing fs path = false ->
  run_ops fs (fs_write path data)
  = (Ok (update (update fs path (Some EmptyString)) path (Some data)),
     [update fs path (Some EmptyString);
      update (update fs path (Some EmptyString)) path (Some data)]).
Proof.
  intros Hro Hpm. unfold fs_write. cbn [run_ops fs_step]. rewrite Hro, Hpm. cbn [orb].
  cbn [update read_only contents]. rewrite Hro, String.eqb_refl. reflexivity.
Qed.

Lemma mkdir_all_self fs d : dirs (mkdir_all fs d) d = true.
Proof. cbn. rewrite String.eqb_refl. reflexivity. Qed.

(** C2 (counterexample): dumping to "dumps/state.json" goes through a
    state where that path holds the empty string, which is neither the
    old nor the new snapshot, and no "dumps/state.json.tmp" is ever
    created. *)
Lemma dump_truncates_target_first :
  let (r, trace) := dump (Some ("dumps/state.json", 60%nat)) (Ok (JObject [])) (Ok (JObject []))
                         fs_old_dump in
  (exists st, In st trace /\ contents st "dumps/state.json" = Some EmptyString) /\
  (forall st, In st trace -> contents st "dumps/state.json.tmp" = None).
Proof.
  vm_compute. split.
  - eexists. split; [right; left; reflexivity | reflexivity].
  - intros st Hin. repeat destruct Hin as [<-|Hin]; try reflexivity. contradiction.
Qed.

(** C2 (amended): when the serialisations succeed and the file system
    accepts the writes, [dump] first creates the parent folder of the
    dump path (when the path has a '/'), then writes the pretty-printed
    snapshot directly onto the dump path with [fs::write]: the dump path
    is truncated to the empty file, then holds the snapshot; no other path
    changes at any step (no temporary file, no rename). *)
Lemma dump_writes_target_in_place path interval thv cmv fs :
  (forall p, read_only fs p = false) ->
  let data := to_string_pretty (snapshot thv cmv) in
  let (r, trace) := dump (Some (path, interval)) (Ok thv) (Ok cmv) fs in
  (exists fs', r = Ok fs' /\ contents fs' path = Some data /\
               (forall q, q <> path -> contents fs' q = contents fs q)) /\
  (forall folder file, rsplit_once path = Some (folder, file) ->
     exists st0 rest, trace = st0 :: rest /\ dirs st0 folder = true /\
                      contents st0 path = contents fs path) /\
  map (fun st => contents st path) trace
  = (match rsplit_once path with Some _ => [contents fs path] | None => [] end
     ++ [Some EmptyString; Some data])%list /\
  (forall st, In st trace -> forall q, q <> path -> contents st q = contents fs q).
Proof.
  intros Hro data. unfold dump. fold data.
  destruct (rsplit_once path) as [[folder file]|] eqn:Esplit.
  - cbn [app run_ops fs_step]. rewrite Hro.
    rewrite fs_write_run
      by (try exact Hro; unfold parent_missing; rewrite Esplit, mkdir_all_self; reflexivity).
    split; [|split; [|split]].
    + eexists. split; [reflexivity|]. split; [apply update_at|].
      intros q Hq. rewrite !update_other by exact Hq. reflexivity.
    + intros folder' file' E. injection E as <- <-.
      do 2 eexists. split; [reflexivity|]. split; [apply mkdir_all_self|reflexivity].
    + cbn [map]. rewrite !update_at. reflexivity.
    + intros st Hin q Hq. repeat destruct Hin as [<-|Hin];
        try (rewrite ?update_other by exact Hq; reflexivity). contradiction.
  - cbn [app]. rewrite fs_write_run
      by (try exact Hro; unfold parent_missing; rewrite Esplit; reflexivity).
    split; [|split; [|split]].
    + eexists. split; [reflexivity|]. split; [apply update_at|].
      intros q Hq. rewrite !update_other by exact Hq. reflexivity.
    + intros folder' file' E. discriminate E.
    + cbn [map]. rewrite !update_at. reflexivity.
    + intros st Hin q Hq. repeat destruct Hin as [<-|Hin];
        try (rewrite ?update_other by exact Hq; reflexivity). contradiction.
Qed.


Lemma map_remove_none k m : has_key k m = false -> map_remove k m = None.
Proof.
  induction m as [|[k' v] m IH]; simpl; [reflexivity|].
  intros H. apply orb_false_iff in H as [H1 H2]. rewrite H1, IH by exact H2. reflexivity.
Qed.

Lemma map_remove_other k k' m v m' :
  map_remove k m = Some (v, m') -> k' <> k -> has_key k' m' = has_key k' m.
Proof.
  revert m'. induction m as [|[k0 v0] m IH]; intros m' Hr Hne; simpl in Hr; [discriminate|].
  destruct (String.eqb_spec k k0) as [<-|Hk].
  - injection Hr as <- <-. simpl.
    destruct (String.eqb_spec k' k); [contradiction|reflexivity].
  - destruct (map_remove k m) as [[x r]|] eqn:E; [|discriminate].
    injection Hr as <- <-. simpl. rewrite (IH r eq_refl Hne). reflexivity.
Qed.

(** C4: when the document is an object that lacks "topic_handler" or
    "clients_manager", [restore_from_json] panics on [unwrap()] instead of
    returning an error. *)
Lemma restore_missing_key_panics {TH CM : Type}
    (from_str : string -> result json string)
    (th_of : json -> result TH string) (cm_of : json -> result CM string)
    (s : string) (obj : list (string * json)) :
  from_str s = Ok (JObject obj) ->
  has_key "topic_handler" obj = false \/ has_key "clients_manager" obj = false ->
  restore_from_json from_str th_of cm_of s = Panics unwrap_none_msg.
Proof.
  intros Hs Hmiss. unfold restore_from_json. rewrite Hs.
  destruct (map_remove "topic_handler" obj) as [[th obj']|] eqn:Eth; [|reflexivity].
  destruct Hmiss as [Hth|Hcm].
  - rewrite map_remove_none in Eth by exact Hth. discriminate.
  - rewrite map_remove_none; [reflexivity|].
    rewrite (map_remove_other _ _ _ _ _ Eth); [exact Hcm|discriminate].
Qed.

End PersistenceClaims.

(** ** The accept loop *)

Section AcceptLoopClaims.
Import AcceptLoop.

(** C1: in a turn where the periodic dump is due and [dump()] fails, the
    [?] on [self.dump()] makes [server_loop] return that error at once:
    none of the following turns runs, so no later connection is accepted,
    and [self.shutdown()] is not called either. *)
Lemma dump_error_ends_server_loop path interval time_last_dump t turns e shutdown_result :
  shutdown_flag t = false -> accept t <> AcceptFailed ->
  (time_last_dump <= now t)%nat -> (interval <= now t - time_last_dump)%nat ->
  dump_result t = Err e ->
  server_loop shutdown_result (Some (path, interval)) time_last_dump (t :: turns)
  = (LoopReturned (Err e),
     match accept t with Accepted c => [SpawnClient c] | _ => [Sleep] end).
Proof.
  intros Hsd Hacc Hle Hdue Hdump. simpl. rewrite Hsd.
  assert ((now t <? time_last_dump)%nat = false) as Hlt by (apply Nat.ltb_ge; exact Hle).
  assert ((interval <=? now t - time_last_dump)%nat = true) as Hd by (apply Nat.leb_le; exact Hdue).
  destruct (accept t) as [c| |]; [| |contradiction];
    rewrite Hlt, Hd, Hdump; reflexivity.
Qed.

End AcceptLoopClaims.

(** * Witnesses *)

Lemma dump_error_ends_server_loop_witness :
  let t1 := {| AcceptLoop.shutdown_flag := false; AcceptLoop.accept := AcceptLoop.AcceptIdle;
               AcceptLoop.now := 60; AcceptLoop.dump_result := Err ServerIo |} in
  let t2 := {| AcceptLoop.shutdown_flag := false; AcceptLoop.accept := AcceptLoop.Accepted 7;
               AcceptLoop.now := 61; AcceptLoop.dump_result := Ok tt |} in
  AcceptLoop.server_loop (Ok tt) (Some ("dumps/state.json"%string, 60%nat)) 0 [t1; t2]
  = (AcceptLoop.LoopReturned (Err ServerIo), [AcceptLoop.Sleep]) /\
  AcceptLoop.spawned [AcceptLoop.Sleep] = [].
Proof.
  split; [|reflexivity].
  apply (dump_error_ends_server_loop "dumps/state.json"%string 60 0); simpl;
    try reflexivity; try lia; discriminate.
Defined.

Lemma dump_writes_target_in_place_witness :
  let fs := fs_old_dump in
  (forall p, Persistence.read_only fs p = false) /\
  let data := Persistence.to_string_pretty (Persistence.snapshot Persistence.JNull Persistence.JNull) in
  let (r, trace) := Persistence.dump (Some ("dumps/state.json"%string, 60%nat))
                      (Ok Persistence.JNull) (Ok Persistence.JNull) fs in
  (exists fs', r = Ok fs' /\ Persistence.contents fs' "dumps/state.json"%string = Some data /\
               (forall q, q <> "dumps/state.json"%string ->
                  Persistence.contents fs' q = Persistence.contents fs q)) /\
  (forall folder file, Persistence.rsplit_once "dumps/state.json"%string = Some (folder, file) ->
     exists st0 rest, trace = st0 :: rest /\ Persistence.dirs st0 folder = true /\
                      Persistence.contents st0 "dumps/state.json"%string
                      = Persistence.contents fs "dumps/state.json"%string) /\
  map (fun st => Persistence.contents st "dumps/state.json"%string) trace
  = (match Persistence.rsplit_once "dumps/state.json"%string with
     | Some _ => [Persistence.contents fs "dumps/state.json"%string] | None => [] end
     ++ [Some EmptyString; Some data])%list /\
  (forall st, In st trace -> forall q, q <> "dumps/state.json"%string ->
     Persistence.contents st q = Persistence.contents fs q).
Proof.
  split; [intros p; reflexivity|].
  apply (dump_writes_target_in_place "dumps/state.json"%string 60 Persistence.JNull Persistence.JNull
           fs_old_dump).
  intros p; reflexivity.
Defined.


Lemma reserved_bit_rejected_witness :
  ServerConnect.read_packet_bytes (16, 14) reserved_body = Ok (reserved_body, []) /\
  ServerConnect.new (16, 14) reserved_body = Err InvalidFlags.
Proof.
  assert (Hread : ServerConnect.read_packet_bytes (16, 14) reserved_body = Ok (reserved_body, []))
    by (vm_compute; reflexivity).
  split; [exact Hread|].
  apply (proj1 (reserved_bit_rejected (16, 14) reserved_body reserved_body [] Hread) 3 ([0; 60] ++ id_field));
    reflexivity.
Defined.


Lemma connect_new_requires_exact_body_witness :
  ServerConnect.read_packet_bytes (16, 15) extra_byte_body = Ok (extra_byte_body, []) /\
  exists e, ServerConnect.new (16, 15) extra_byte_body = Err e.
Proof.
  assert (Hread : ServerConnect.read_packet_bytes (16, 15) extra_byte_body = Ok (extra_byte_body, []))
    by (vm_compute; reflexivity).
  split; [exact Hread|].
  apply (proj1 (connect_new_requires_exact_body (16, 15) extra_byte_body extra_byte_body [] Hread)
           {| ServerConnect.client_id := bytes_of_string "id"; ServerConnect.clean_session := false;
              ServerConnect.user_name := None; ServerConnect.password := None;
              ServerConnect.last_will := None; ServerConnect.keep_alive := 60 |} [7]).
  - vm_compute. reflexivity.
  - discriminate.
Defined.

Lemma pingreq_read_from_ok_iff_witness :
  0 <= 0xC0 < 256 /\ PingReqPacket.read_from [0] 0xC0 = Ok PingReqPacket.mkPingReq.
Proof.
  assert (Hb : 0 <= 0xC0 < 256) by lia.
  split; [exact Hb|].
  apply (proj1 (pingreq_read_from_ok_iff [0] 0xC0 Hb)).
  split; [reflexivity|]. split; [reflexivity|]. exists []. reflexivity.
Defined.


Lemma handle_publish_puback_then_broadcast_witness :
  PublishHandling.well_formed sample_publish /\
  PublishHandling.handle_publish sample_publish "a" (Ok tt) (Err ServerIo)
  = ([PublishHandling.SendPuback "a" 10;
      PublishHandling.Broadcast (PublishHandling.set_max_qos sample_publish 1)], Err ServerIo).
Proof.
  assert (Hwf : PublishHandling.well_formed sample_publish).
  { unfold PublishHandling.well_formed. simpl. split; [lia|]. split; [lia|discriminate]. }
  split; [exact Hwf|].
  apply (proj1 (proj2 (proj2 (proj2 (proj2 (handle_publish_puback_then_broadcast sample_publish "a" Hwf)))))
           10 eq_refl (Err ServerIo)).
Defined.

Lemma timeout_resends_and_checks_keep_alive_witness :
  (1000 <= 5000)%nat /\
  ClientLoop.client_loop (Some 3000%nat) 1000
    [{| ClientLoop.ev_now := 5000; ClientLoop.ev_read := ClientLoop.Failed Timeout;
        ClientLoop.ev_resend_ok := true |}]
  = (ClientLoop.Returned (Ok false), [ClientLoop.SendUnacknowledged (Some 2000%nat)]).
Proof.
  assert (Hle : (1000 <= 5000)%nat) by lia.
  split; [exact Hle|].
  rewrite (proj1 (proj2 (timeout_resends_and_checks_keep_alive (Some 3000%nat) 1000 5000 [] Hle))).
  reflexivity.
Defined.

Lemma restore_missing_key_panics_witness :
  let from_str := fun _ : string =>
    Ok (Persistence.JObject [("topic_handler"%string, Persistence.JObject []);
                             ("version"%string, Persistence.JNumber 1)]) : result Persistence.json string in
  from_str "{}"%string = Ok (Persistence.JObject [("topic_handler"%string, Persistence.JObject []);
                                                   ("version"%string, Persistence.JNumber 1)]) /\
  Persistence.restore_from_json from_str (fun _ => Ok tt : result unit string)
    (fun _ => Ok tt : result unit string) "{}"%string = Persistence.Panics Persistence.unwrap_none_msg.
Proof.
  intros from_str. split; [reflexivity|].
  apply (restore_missing_key_panics from_str (fun _ => Ok tt) (fun _ => Ok tt) "{}"%string
           [("topic_handler"%string, Persistence.JObject []); ("version"%string, Persistence.JNumber 1)]).
  - reflexivity.
  - right. reflexivity.
Defined.

(** * Further properties of the code *)

(** ** Unsubscribe *)

Section UnsubscribeProperties.
Import UnsubscribePacket.


Lemma read_topic_filters_go_fields (tfs : list (list Z)) (junk : list Z) :
  Forall valid_filter tfs -> field_new_from_stream junk = None ->
  forall fuel acc, (List.length (List.concat (map field_encode tfs)) < fuel)%nat ->
  read_topic_filters_go fuel (List.concat (map field_encode tfs) ++ junk) acc = Ok (acc ++ tfs).
Proof.
  intros Hall Hj. induction Hall as [|v tfs Hv Hall IH]; intros fuel acc Hf.
  - destruct fuel as [|f]; [lia|]. cbn. rewrite Hj, app_nil_r. reflexivity.
  - destruct Hv as (Hne & Hu & Hz & Hlen).
    destruct fuel as [|f]; [lia|]. cbn [map List.concat]. rewrite <- app_assoc.
    cbn [read_topic_filters_go]. rewrite field_roundtrip by assumption.
    destruct v as [|x xs]; [contradiction|].
    rewrite IH.
    + rewrite <- app_assoc. reflexivity.
    + cbn [map List.concat] in Hf. rewrite length_app in Hf.
      change (List.length (field_encode (x :: xs))) with (S (S (S (List.length xs)))) in Hf. lia.
Qed.

Lemma read_topic_filters_go_keeps (P : list Z -> Prop) :
  (forall s v s', field_new_from_stream s = Some (v, s') -> v <> [] -> P v) ->
  forall fuel s acc r, Forall P acc -> read_topic_filters_go fuel s acc = Ok r -> Forall P r.
Proof.
  intros HP fuel. induction fuel as [|f IH]; intros s acc r Hacc H; cbn in H.
  - injection H as <-. exact Hacc.
  - destruct (field_new_from_stream s) as [[v s']|] eqn:E.
    + destruct v as [|x xs]; [discriminate|].
      apply (IH s' (acc ++ [x :: xs]) r); [|exact H].
      apply Forall_app. split; [exact Hacc|]. constructor; [|constructor].
      apply (HP s _ s' E). discriminate.
    + injection H as <-. exact Hacc.
Qed.

Lemma unsubscribe_control_byte (cb : Z) :
  0 <= cb < 256 ->
  Z.shiftr (Z.land cb 0xF0) 4 = Z.shiftr cb 4 /\ Z.land cb 0xF = cb mod 16.
Proof.
  intros Hb.
  pose proof (all_bytes (fun b => (Z.shiftr (Z.land b 0xF0) 4 =? Z.shiftr b 4) && (Z.land b 0xF =? b mod 16))
                ltac:(vm_compute; reflexivity) cb Hb) as H.
  cbn beta in H. apply andb_true_iff in H as [H1 H2]. split; apply Z.eqb_eq; assumption.
Qed.

End UnsubscribeProperties.

Section UnsubscribeExtras.
Import UnsubscribePacket.

Lemma read_topic_filters_go_prefix (tfs : list (list Z)) :
  Forall valid_filter tfs ->
  forall fuel acc s, (List.length (List.concat (map field_encode tfs)) < fuel)%nat ->
  exists f, (0 < f)%nat /\
    read_topic_filters_go fuel (List.concat (map field_encode tfs) ++ s) acc
    = read_topic_filters_go f s (acc ++ tfs).
Proof.
  intros Hall. induction Hall as [|v tfs Hv Hall IH]; intros fuel acc s Hf.
  - exists fuel. split; [lia|]. now rewrite app_nil_r.
  - destruct Hv as (Hne & Hu & Hz & Hlen).
    destruct fuel as [|f]; [lia|]. cbn [map List.concat]. rewrite <- app_assoc.
    cbn [read_topic_filters_go]. rewrite field_roundtrip by assumption.
    destruct v as [|x xs]; [contradiction|].
    destruct (IH f (acc ++ [x :: xs]) s) as [f' [Hf' Heq]].
    + cbn [map List.concat] in Hf. rewrite length_app in Hf.
      change (List.length (field_encode (x :: xs))) with (S (S (S (List.length xs)))) in Hf. lia.
    + exists f'. split; [exact Hf'|]. rewrite Heq, <- app_assoc. reflexivity.
Qed.

Lemma unsubscribe_byte_a2 (cb : Z) :
  0 <= cb < 256 -> Z.shiftr (Z.land cb 0xF0) 4 = 10 -> Z.land cb 0xF = 2 -> cb = 0xA2.
Proof.
  intros Hb H1 H2.
  pose proof (all_bytes (fun b => negb ((Z.shiftr (Z.land b 0xF0) 4 =? 10) && (Z.land b 0xF =? 2))
                                  || (b =? 0xA2)) ltac:(vm_compute; reflexivity) cb Hb) as H.
  cbn beta in H. rewrite H1, H2 in H. cbn in H. apply Z.eqb_eq, H.
Qed.

(** X1: an Unsubscribe packet with control byte [0xA2], a packet id and a
    non-empty list of valid, non-empty topic filters decodes to that
    packet id (big-endian) and those filters, in order, for any body
    length up to the largest remaining length (268435455). Bytes of the
    body after the last filter that do not start a valid field are
    ignored, and the stream after the body is left alone. *)
Lemma unsubscribe_read_from_roundtrip (hi lo : Z) (tfs : list (list Z)) (junk next : list Z) :
  Forall valid_filter tfs -> tfs <> [] -> field_new_from_stream junk = None ->
  let body := [hi; lo] ++ List.concat (map field_encode tfs) ++ junk in
  Z.of_nat (List.length body) < 268435456 ->
  read_from (encode_remaining_length (Z.of_nat (List.length body)) ++ body ++ next) 0xA2
  = Ok {| packet_id := hi * 256 + lo; topic_filters := tfs |}.
Proof.
  intros Hall Hne Hj. cbv zeta. intros Hl.
  unfold read_from.
  change (verify_control_packet_type 0xA2) with (@Ok unit UnsubscribeError tt).
  change (verify_reserved_bits 0xA2) with (@Ok unit UnsubscribeError tt). cbv iota beta.
  rewrite read_remaining_bytes_encoded by exact Hl.
  cbn [app read_packet_id]. unfold read_topic_filters.
  rewrite read_topic_filters_go_fields by (try assumption; rewrite length_app; lia).
  destruct tfs as [|t tfs']; [contradiction|]. reflexivity.
Qed.

(** X2: whenever [Unsubscribe::read_from] succeeds on a byte, that
    control byte is [0xA2], and the packet holds at least one topic
    filter, each of them non-empty, well-formed UTF-8 and free of U+0000. *)
Lemma unsubscribe_read_from_ok_shape (stream : list Z) (cb : Z) (u : Unsubscribe) :
  0 <= cb < 256 -> read_from stream cb = Ok u ->
  cb = 0xA2 /\ topic_filters u <> [] /\
  Forall (fun v => v <> [] /\ utf8_valid v = true /\ existsb (Z.eqb 0) v = false) (topic_filters u).
Proof.
  intros Hb H. unfold read_from in H.
  destruct (verify_control_packet_type cb) as [x|e] eqn:E1; [|discriminate].
  destruct (verify_reserved_bits cb) as [y|e] eqn:E2; [|discriminate].
  destruct (read_remaining_bytes stream) as [[body next]|e]; [|discriminate].
  destruct (read_packet_id body) as [pid rest].
  destruct (read_topic_filters rest) as [tfs|e] eqn:E3; [|discriminate].
  injection H as <-. cbn [topic_filters].
  split.
  - unfold verify_control_packet_type, verify_reserved_bits in *.
    destruct (Z.shiftr (Z.land cb 0xF0) 4 =? UNSUBSCRIBE_CONTROL_PACKET_TYPE) eqn:Ea; [|discriminate].
    destruct (Z.land cb 0xF =? FIXED_RESERVED_BITS) eqn:Eb; [|discriminate].
    apply Z.eqb_eq in Ea, Eb. apply unsubscribe_byte_a2; assumption.
  - unfold read_topic_filters in E3.
    destruct (read_topic_filters_go (S (List.length rest)) rest []) as [r|e] eqn:E4; [|discriminate].
    destruct r as [|v r]; [discriminate|]. injection E3 as <-.
    split; [discriminate|].
    refine (read_topic_filters_go_keeps _ _ _ _ _ _ (Forall_nil _) E4).
    intros s v' s' Hs Hne. destruct (field_new_from_stream_valid _ _ _ Hs) as (Hu & Hz & _).
    auto.
Qed.

(** X3: the errors of [Unsubscribe::read_from]. A packet type other than
    10 is [InvalidControlPacketType] whatever follows; type 10 with flags
    other than [0b0010] is [InvalidReservedBits]. With control byte
    [0xA2], a body with no topic filter after the packet id, or with an
    empty topic filter after any number of valid ones, is
    [InvalidProtocol]. *)
Lemma unsubscribe_read_from_errors (stream : list Z) (cb : Z) :
  0 <= cb < 256 ->
  (Z.shiftr cb 4 <> 10 -> read_from stream cb = Err (PacketErr InvalidControlPacketType)) /\
  (Z.shiftr cb 4 = 10 -> cb mod 16 <> 2 -> read_from stream cb = Err InvalidReservedBits) /\
  (forall body next, cb = 0xA2 -> read_remaining_bytes stream = Ok (body, next) ->
     (field_new_from_stream (skipn 2 body) = None ->
        read_from stream cb = Err (PacketErr InvalidProtocol)) /\
     (forall hi lo tfs rest, Forall valid_filter tfs ->
        body = [hi; lo] ++ List.concat (map field_encode tfs) ++ [0; 0] ++ rest ->
        read_from stream cb = Err (PacketErr InvalidProtocol))).
Proof.
  intros Hb. destruct (unsubscribe_control_byte cb Hb) as [Ht Hr].
  split; [|split].
  - intros Hne. unfold read_from, verify_control_packet_type. rewrite Ht.
    destruct (Z.eqb_spec (Z.shiftr cb 4) UNSUBSCRIBE_CONTROL_PACKET_TYPE) as [E|E];
      [unfold UNSUBSCRIBE_CONTROL_PACKET_TYPE in E; contradiction | reflexivity].
  - intros H10 Hne. unfold read_from, verify_control_packet_type, verify_reserved_bits.
    rewrite Ht, H10, Hr. cbn [UNSUBSCRIBE_CONTROL_PACKET_TYPE Z.eqb negb].
    destruct (Z.eqb_spec (cb mod 16) FIXED_RESERVED_BITS) as [E|E];
      [unfold FIXED_RESERVED_BITS in E; contradiction | reflexivity].
  - intros body next -> Hrb. unfold read_from.
    change (verify_control_packet_type 0xA2) with (@Ok unit UnsubscribeError tt).
    change (verify_reserved_bits 0xA2) with (@Ok unit UnsubscribeError tt). cbv iota beta.
    rewrite Hrb. split.
    + intros Hnone.
      assert (Hpid : exists pid rest, read_packet_id body = (pid, rest) /\
                       field_new_from_stream rest = None).
      { destruct body as [|a [|b r]]; cbn; eauto. }
      destruct Hpid as (pid & rest & -> & Hrest).
      unfold read_topic_filters. cbn [read_topic_filters_go]. rewrite Hrest. reflexivity.
    + intros hi lo tfs rest Hall ->. cbn [app read_packet_id]. unfold read_topic_filters.
      destruct (read_topic_filters_go_prefix tfs Hall (S (List.length
                  (List.concat (map field_encode tfs) ++ 0 :: 0 :: rest))) [] (0 :: 0 :: rest))
        as (f & Hf & Heq).
      { rewrite length_app. lia. }
      cbn [app] in Heq |- *. rewrite Heq.
      destruct f as [|f]; [lia|]. reflexivity.
Qed.

End UnsubscribeExtras.

Section UnsubscribeHandling.
Import Dispatch.

(** X4: [handle_unsubscribe] sends an [Unsuback] only once the topic
    handler has unsubscribed the client, to that same client and with the
    packet id of the [Unsubscribe]; when the topic handler fails nothing
    is done and its error is returned; when both steps succeed the
    handler unsubscribes the packet's filters, then acknowledges. *)
Lemma handle_unsubscribe_acks_after_unsubscribe (u : UnsubscribePacket.Unsubscribe) (id : string)
    (th sr : result unit ServerErrorKind) :
  (forall c pid, In (SendUnsuback c pid) (fst (handle_unsubscribe u id th sr)) ->
     th = Ok tt /\ sr = Ok tt /\ c = id /\ pid = UnsubscribePacket.packet_id u) /\
  (forall e, th = Err e -> handle_unsubscribe u id th sr = ([], Err e)) /\
  (th = Ok tt -> sr = Ok tt ->
     handle_unsubscribe u id th sr
     = ([TopicHandlerUnsubscribe id (UnsubscribePacket.topic_filters u);
         SendUnsuback id (UnsubscribePacket.packet_id u)], Ok tt)).
Proof.
  unfold handle_unsubscribe.
  destruct th as [[]|e1]; [destruct sr as [[]|e2]|]; cbn.
  - split; [|split; [discriminate|reflexivity]].
    intros c pid [H|[H|[]]]; [discriminate|]. injection H as <- <-. auto.
  - split; [|split; [discriminate|discriminate]].
    intros c pid [H|[]]. discriminate.
  - split; [intros c pid []|]. split; [|discriminate].
    intros e H. injection H as <-. reflexivity.
Qed.

End UnsubscribeHandling.

(** ** The Connect decoder *)

Section ConnectExtras.
Import ServerConnect.


Lemma bind_ok {A B} (m : Reader A) (k : A -> Reader B) (s : list Z) (a : A) (s' : list Z) :
  m s = Ok (a, s') -> bind m k s = k a s'.
Proof. intros H. unfold bind. now rewrite H. Qed.

Lemma read_field_valid (v rest : list Z) :
  valid_field v -> read_field (field_encode v ++ rest) = Ok (v, rest).
Proof. intros (Hu & Hz & Hl). now apply read_field_roundtrip. Qed.

Lemma get_will_consistent (f : Z) :
  (flag f WILL_FLAG = false ->
     flag f WILL_QOS_0 = false /\ flag f WILL_QOS_1 = false /\ flag f WILL_RETAIN = false) ->
  get_will f = Ok (if flag f WILL_FLAG
                   then Some {| retain := flag f WILL_RETAIN;
                                qos := if Z.land f WILL_QOS_0 =? 0 then QoSLevel0 else QoSLevel1;
                                topic := []; message := [] |}
                   else None).
Proof.
  intros H. unfold get_will. destruct (flag f WILL_FLAG); [reflexivity|].
  destruct (H eq_refl) as (-> & -> & ->). reflexivity.
Qed.

Lemma get_flags_ok (f : Z) (rest : list Z) :
  flag f RESERVED = false ->
  (flag f WILL_FLAG = false ->
     flag f WILL_QOS_0 = false /\ flag f WILL_QOS_1 = false /\ flag f WILL_RETAIN = false) ->
  get_flags (f :: rest)
  = Ok ({| client_id := [];
           clean_session := flag f CLEAN_SESSION;
           user_name := if flag f USERNAME_FLAG then Some [] else None;
           password := if flag f PASSWORD_FLAG then Some [] else None;
           last_will := if flag f WILL_FLAG
                        then Some {| retain := flag f WILL_RETAIN;
                                     qos := if Z.land f WILL_QOS_0 =? 0 then QoSLevel0 else QoSLevel1;
                                     topic := []; message := [] |}
                        else None;
           keep_alive := 0 |}, rest).
Proof.
  intros Hres Hwill. unfold get_flags, bind, read_byte. cbv beta iota.
  rewrite Hres, (get_will_consistent f Hwill). reflexivity.
Qed.

Lemma read_field_valid_end (v : list Z) : valid_field v -> read_field (field_encode v) = Ok (v, []).
Proof. intros Hv. rewrite <- (app_nil_r (field_encode v)). now apply read_field_valid. Qed.

Lemma get_keepalive_ok (c : Connect) (hi lo : Z) (rest : list Z) :
  get_keepalive c (hi :: lo :: rest) = Ok (set_keep_alive c (hi * 256 + lo), rest).
Proof. reflexivity. Qed.

Lemma get_clientid_ok (c : Connect) (v rest : list Z) :
  valid_field v -> get_clientid c (field_encode v ++ rest) = Ok (set_client_id c v, rest).
Proof.
  intros Hv. unfold get_clientid. rewrite (bind_ok _ _ _ _ _ (read_field_valid _ _ Hv)). reflexivity.
Qed.

Lemma get_will_data_some (c : Connect) (lw : LastWill) (t m rest : list Z) :
  last_will c = Some lw -> valid_field t -> valid_field m ->
  get_will_data c (field_encode t ++ field_encode m ++ rest)
  = Ok (set_last_will c (Some {| retain := retain lw; qos := qos lw; topic := t; message := m |}), rest).
Proof.
  intros Hc Ht Hm. unfold get_will_data. rewrite Hc.
  unfold bind at 1. rewrite (read_field_valid _ _ Ht). cbv beta iota.
  unfold bind. rewrite (read_field_valid _ _ Hm). reflexivity.
Qed.

Lemma get_will_data_none (c : Connect) (rest : list Z) :
  last_will c = None -> get_will_data c rest = Ok (c, rest).
Proof. intros Hc. unfold get_will_data. rewrite Hc. reflexivity. Qed.


(** X5: decoding a well-formed Connect packet gives back what it carries:
    the client id, the clean-session bit, the keep alive (big-endian), a
    last will exactly when the will flag is set (with the will-retain bit,
    QoS 1 iff bit 3 is set, and the will topic and message), a user name
    exactly when the user-name flag is set and a password exactly when the
    password flag is set (also without a user name). This holds for any
    body length up to the largest remaining length (268435455); the rest
    of the stream after the packet is not read. *)
Lemma connect_new_roundtrip (f hi lo : Z) (cid t m u p next : list Z) :
  flag f RESERVED = false ->
  (flag f WILL_FLAG = false ->
     flag f WILL_QOS_0 = false /\ flag f WILL_QOS_1 = false /\ flag f WILL_RETAIN = false) ->
  valid_field cid -> valid_field t -> valid_field m -> valid_field u -> valid_field p ->
  let body := connect_body f hi lo cid t m u p in
  Z.of_nat (List.length body) < 268435456 ->
  let len := encode_remaining_length (Z.of_nat (List.length body)) in
  new (0x10, hd 0 len) (tl len ++ body ++ next)
  = Ok {| client_id := cid;
          clean_session := flag f CLEAN_SESSION;
          user_name := if flag f USERNAME_FLAG then Some u else None;
          password := if flag f PASSWORD_FLAG then Some p else None;
          last_will := if flag f WILL_FLAG
                       then Some {| retain := flag f WILL_RETAIN;
                                    qos := if Z.land f WILL_QOS_0 =? 0 then QoSLevel0 else QoSLevel1;
                                    topic := t; message := m |}
                       else None;
          keep_alive := hi * 256 + lo |}.
Proof.
  intros Hres Hwill Hcid Ht Hm Hu Hp. cbv zeta. intros Hl.
  unfold new, read_packet_bytes.
  change (negb (Z.shiftr 0x10 4 =? 1)) with false. cbv iota beta.
  rewrite encode_remaining_length_split, decode_encode_length by lia.
  rewrite Nat2Z.id, read_exact_app. cbv iota beta.
  unfold connect_body, connect_fields.
  rewrite (bind_ok _ _ _ _ _ (verify_protocol_mqtt _)). cbv beta. cbn [app].
  rewrite (bind_ok _ _ _ tt _ (eq_refl : verify_protocol_level (4 :: _) = Ok (tt, _))). cbv beta.
  rewrite (bind_ok _ _ _ _ _ (get_flags_ok f _ Hres Hwill)). cbv beta.
  rewrite (bind_ok _ _ _ _ _ (get_keepalive_ok _ hi lo _)). cbv beta.
  rewrite (bind_ok _ _ _ _ _ (get_clientid_ok _ _ _ Hcid)). cbv beta.
  cbn [last_will set_keep_alive set_client_id].
  destruct (flag f WILL_FLAG) eqn:Ew.
  - rewrite <- app_assoc.
    erewrite bind_ok; [|apply get_will_data_some; [reflexivity|exact Ht|exact Hm]]. cbv beta.
    unfold get_auth, ret, bind, set_client_id, set_keep_alive, set_last_will, set_auth.
    cbn [user_name password last_will retain qos].
    destruct (flag f USERNAME_FLAG); destruct (flag f PASSWORD_FLAG);
      rewrite ?app_nil_l, ?app_nil_r;
      rewrite ?read_field_valid, ?read_field_valid_end by assumption; reflexivity.
  - rewrite app_nil_l.
    erewrite bind_ok; [|apply get_will_data_none; reflexivity]. cbv beta.
    unfold get_auth, ret, bind, set_client_id, set_keep_alive, set_last_will, set_auth.
    cbn [user_name password last_will retain qos].
    destruct (flag f USERNAME_FLAG); destruct (flag f PASSWORD_FLAG);
      rewrite ?app_nil_l, ?app_nil_r;
      rewrite ?read_field_valid, ?read_field_valid_end by assumption; reflexivity.
Qed.

(** X6: with protocol "MQTT" and level 4, a flags byte whose will flag is
    clear, but which sets a will-QoS bit or the will-retain bit, makes
    [Connect::new] fail with [InvalidFlags] (through [get_will], or
    already through the reserved bit when that is set too), whatever
    follows in the body. *)
Lemma will_bits_without_will_flag_rejected (h : Z * Z) (stream body srest : list Z) (f : Z)
    (rest : list Z) :
  read_packet_bytes h stream = Ok (body, srest) ->
  body = mqtt_field ++ 4 :: f :: rest ->
  flag f WILL_FLAG = false ->
  flag f WILL_QOS_0 || flag f WILL_QOS_1 || flag f WILL_RETAIN = true ->
  new h stream = Err InvalidFlags.
Proof.
  intros Hread -> Hw Hbits. unfold new. rewrite Hread. cbv iota beta.
  unfold connect_fields.
  rewrite (bind_ok _ _ _ _ _ (verify_protocol_mqtt _)). cbv beta.
  rewrite (bind_ok _ _ _ tt _ (eq_refl : verify_protocol_level (4 :: _) = Ok (tt, _))). cbv beta.
  assert (Hg : get_flags (f :: rest) = Err InvalidFlags).
  { unfold get_flags, bind, read_byte. cbv beta iota.
    destruct (flag f RESERVED); [reflexivity|].
    unfold get_will. rewrite Hw, Hbits. reflexivity. }
  unfold bind at 1. rewrite Hg. reflexivity.
Qed.

(** X7: a Connect packet whose first field is a valid UTF-8 string other
    than "MQTT" fails with [InvalidProtocol], before the level or the
    flags are read. *)
Lemma wrong_protocol_name_rejected (h : Z * Z) (stream body srest : list Z) (v rest : list Z) :
  read_packet_bytes h stream = Ok (body, srest) ->
  body = field_encode v ++ rest -> valid_field v -> v <> bytes_of_string "MQTT" ->
  new h stream = Err InvalidProtocol.
Proof.
  apply new_protocol_name_mismatch.
Qed.

End ConnectExtras.

(** ** The connected-client loop *)

Section ClientLoopExtras.
Import ClientLoop.

(** The loop's only state is the time of the last activity: running it
    on two stretches of events is running it on the first and, if it is
    still running, on the second from where the first one left off. *)
Lemma client_loop_app (keep_alive_opt : option nat) (last : nat) (pre post : list Event) :
  client_loop keep_alive_opt last (pre ++ post)
  = match client_loop keep_alive_opt last pre with
    | (Running l, cs) => let (o, cs') := client_loop keep_alive_opt l post in (o, cs ++ cs')
    | (Returned r, cs) => (Returned r, cs)
    end.
Proof.
  revert last. induction pre as [|ev pre IH]; intros last.
  - cbn. destruct (client_loop keep_alive_opt last post). reflexivity.
  - cbn [app client_loop].
    destruct (ev_read ev) as [t|k].
    + destruct (is_disconnect t); [reflexivity|]. apply IH.
    + destruct (is_timeout k); [|reflexivity].
      destruct (negb (ev_resend_ok ev)); [reflexivity|].
      assert (Hcont : (let (o, cs) := client_loop keep_alive_opt last (pre ++ post) in
                       (o, SendUnacknowledged MIN_ELAPSED_TIME :: cs))
                      = match (let (o, cs) := client_loop keep_alive_opt last pre in
                               (o, SendUnacknowledged MIN_ELAPSED_TIME :: cs)) with
                        | (Running l, cs) => let (o, cs') := client_loop keep_alive_opt l post in
                                             (o, cs ++ cs')
                        | (Returned r, cs) => (Returned r, cs)
                        end).
      { rewrite IH. destruct (client_loop keep_alive_opt last pre) as [[l|r] cs].
        - destruct (client_loop keep_alive_opt l post). reflexivity.
        - reflexivity. }
      destruct keep_alive_opt as [ka|].
      * destruct (duration_since (ev_now ev) last) as [d|]; [|reflexivity].
        destruct (ka <? d)%nat; [reflexivity|]. exact Hcont.
      * exact Hcont.
Qed.

(** X9: the loop reports a graceful disconnection ([Ok(true)]) exactly
    when it reads a [Disconnect] packet after a stretch of events on
    which it kept running; the calls made are those of that stretch. *)
Lemma client_loop_graceful_iff_disconnect (keep_alive_opt : option nat) (last : nat)
    (evs : list Event) (cs : list Call) :
  client_loop keep_alive_opt last evs = (Returned (Ok true), cs) <->
  exists pre ev post l, evs = pre ++ ev :: post /\ ev_read ev = Processed PDisconnect /\
    client_loop keep_alive_opt last pre = (Running l, cs).
Proof.
  split.
  - revert last cs. induction evs as [|ev evs IH]; intros last cs H; [discriminate|].
    cbn [client_loop] in H.
    destruct (ev_read ev) as [t|k] eqn:Er.
    + destruct t; try (destruct (IH _ _ H) as (pre & ev' & post & l & -> & Hd & Hpre);
                       exists (ev :: pre), ev', post, l; cbn [app client_loop]; rewrite Er;
                       split; [reflexivity|]; split; [exact Hd|exact Hpre]).
      injection H as <-. exists [], ev, evs, last. auto.
    + destruct (is_timeout k) eqn:Et; [|discriminate].
      destruct (negb (ev_resend_ok ev)) eqn:Eo; [discriminate|].
      assert (Hstep : forall cs0,
                 (let (o, cs1) := client_loop keep_alive_opt last evs in
                  (o, SendUnacknowledged MIN_ELAPSED_TIME :: cs1)) = (Returned (Ok true), cs0) ->
                 exists pre ev' post l, ev :: evs = pre ++ ev' :: post /\
                   ev_read ev' = Processed PDisconnect /\
                   (let (o, cs1) := client_loop keep_alive_opt last (tl pre) in
                    (o, SendUnacknowledged MIN_ELAPSED_TIME :: cs1)) = (Running l, cs0) /\
                   hd_error pre = Some ev).
      { intros cs0 Hc. destruct (client_loop keep_alive_opt last evs) as [o cs1] eqn:El.
        injection Hc as -> <-.
        destruct (IH _ _ El) as (pre & ev' & post & l & -> & Hd & Hpre).
        exists (ev :: pre), ev', post, l. cbn [tl hd_error app]. rewrite Hpre. auto. }
      destruct keep_alive_opt as [ka|].
      * destruct (duration_since (ev_now ev) last) as [d|] eqn:Ed; [|discriminate].
        destruct (ka <? d)%nat eqn:Ek; [discriminate|].
        destruct (Hstep _ H) as (pre & ev' & post & l & Heq & Hd & Hpre & Hhd).
        destruct pre as [|e0 pre]; [discriminate|]. injection Hhd as ->.
        exists (ev :: pre), ev', post, l. split; [exact Heq|]. split; [exact Hd|].
        cbn [client_loop]. rewrite Er, Et, Eo, Ed, Ek. exact Hpre.
      * destruct (Hstep _ H) as (pre & ev' & post & l & Heq & Hd & Hpre & Hhd).
        destruct pre as [|e0 pre]; [discriminate|]. injection Hhd as ->.
        exists (ev :: pre), ev', post, l. split; [exact Heq|]. split; [exact Hd|].
        cbn [client_loop]. rewrite Er, Et, Eo. exact Hpre.
  - intros (pre & ev & post & l & -> & Hd & Hpre).
    rewrite client_loop_app, Hpre. cbn [client_loop]. rewrite Hd. cbn.
    rewrite app_nil_r. reflexivity.
Qed.


(** X10: without a keep alive the loop never ends by itself: as long as
    every read either times out (and the resend succeeds) or processes a
    packet other than [Disconnect], it keeps running, and it has called
    [send_unacknowledged] with 2000 ms once per timeout. *)
Lemma client_loop_no_keep_alive_runs (last : nat) (evs : list Event) :
  Forall (fun ev => ev_resend_ok ev = true /\
            (ev_read ev = Failed Timeout \/
             exists t, ev_read ev = Processed t /\ t <> PDisconnect)) evs ->
  exists l, client_loop None last evs
            = (Running l, repeat (SendUnacknowledged (Some 2000%nat))
                                 (List.length (filter is_timeout_event evs))).
Proof.
  intros Hall. revert last. induction Hall as [|ev evs [Hok Hr] Hall IH]; intros last.
  - exists last. reflexivity.
  - cbn [client_loop filter]. unfold is_timeout_event at 1.
    destruct Hr as [Ht | (t & Ht & Hne)]; rewrite Ht.
    + cbn [is_timeout]. rewrite Hok. cbn [negb].
      destruct (IH last) as [l Hl]. rewrite Hl. exists l. reflexivity.
    + assert (is_disconnect t = false) as Hd by (destruct t; try reflexivity; contradiction).
      rewrite Hd. apply IH.
Qed.

End ClientLoopExtras.

(** ** Packet dispatch *)

Section DispatchExtras.
Import ClientLoop Dispatch.

(** X11: [process_packet_given_control_byte] dispatches a job or an
    answer only when the packet decoded and the action succeeded, and on
    success reports the type it was given. A packet type the server does
    not take from a connected client (Connect, Connack, Suback, Unsuback,
    PingResp) is a [ProtocolViolation] for which nothing is read or
    dispatched, and it ends the client loop with an ungraceful
    disconnection ([Ok(false)]) without further calls. *)
Lemma dispatch_only_after_decoding (t : PacketType) (decoded act : result unit ServerErrorKind) :
  (fst (process_packet_given_type t decoded act) <> [] ->
     decoded = Ok tt /\ act = Ok tt /\ snd (process_packet_given_type t decoded act) = Ok t) /\
  (forall t', snd (process_packet_given_type t decoded act) = Ok t' -> t' = t) /\
  (match t with
   | PPublish | PPuback | PSubscribe | PUnsubscribe | PPingReq | PDisconnect => False
   | _ => True
   end ->
   process_packet_given_type t decoded act = ([], Err ProtocolViolation) /\
   forall keep_alive_opt last n resend_ok evs,
     client_loop keep_alive_opt last
       ({| ev_now := n; ev_read := read_outcome (snd (process_packet_given_type t decoded act));
           ev_resend_ok := resend_ok |} :: evs) = (Returned (Ok false), [])).
Proof.
  destruct decoded as [[]|e1]; [destruct act as [[]|e2]|];
    destruct t; cbn;
    repeat split; intros; try contradiction; try congruence;
    try (match goal with H : Ok _ = Ok _ |- _ => injection H as <- end; reflexivity).
Qed.

End DispatchExtras.

(** ** The accept loop *)

Section AcceptLoopExtras.
Import AcceptLoop.


Lemma server_loop_ordinary_prefix sr (time_last_dump : nat) (pre rest : list Turn) :
  Forall ordinary pre ->
  server_loop sr None time_last_dump (pre ++ rest)
  = let (st, acts) := server_loop sr None time_last_dump rest in (st, map turn_action pre ++ acts).
Proof.
  intros Hall. induction Hall as [|t pre [Hs Ha] Hall IH].
  - cbn. destruct (server_loop sr None time_last_dump rest). reflexivity.
  - cbn [app server_loop]. rewrite Hs. rewrite IH.
    destruct (server_loop sr None time_last_dump rest) as [st acts].
    cbn [map app]. unfold turn_action at 1 3.
    destruct (accept t) as [c| |]; [reflexivity|reflexivity|contradiction].
Qed.

(** X12: without a configured dump, as long as the shutdown flag is
    clear and [accept] does not fail, the loop keeps going and spawns a
    client thread for every accepted connection, in order, sleeping in
    the turns where nothing was pending. *)
Lemma server_loop_spawns_every_connection (time_last_dump : nat) (turns : list Turn)
    (shutdown_result : result unit ServerErrorKind) :
  Forall ordinary turns ->
  server_loop shutdown_result None time_last_dump turns = (Looping, map turn_action turns) /\
  spawned (map turn_action turns)
  = flat_map (fun t => match accept t with Accepted c => [c] | _ => [] end) turns.
Proof.
  intros Hall. split.
  - rewrite <- (app_nil_r turns). rewrite server_loop_ordinary_prefix by exact Hall.
    cbn. rewrite !app_nil_r. reflexivity.
  - induction Hall as [|t turns _ _ IH]; [reflexivity|].
    unfold spawned in *. cbn [map flat_map]. rewrite IH.
    unfold turn_action at 1. destruct (accept t); reflexivity.
Qed.

(** X13: without a configured dump, the first turn that finds the
    shutdown flag set, or in which [accept] fails with an error other
    than [WouldBlock], ends the loop: nothing from that turn on is
    accepted, the failure is logged, [shutdown] runs last, and the loop
    returns what [shutdown] returned. *)
Lemma server_loop_stops_then_shutdown (time_last_dump : nat) (pre : list Turn) (t : Turn)
    (post : list Turn) (shutdown_result : result unit ServerErrorKind) :
  Forall ordinary pre -> shutdown_flag t = true \/ accept t = AcceptFailed ->
  server_loop shutdown_result None time_last_dump (pre ++ t :: post)
  = (LoopReturned shutdown_result,
     map turn_action pre ++ (if shutdown_flag t then [Shutdown] else [LogAcceptError; Shutdown])).
Proof.
  intros Hall Hstop. rewrite server_loop_ordinary_prefix by exact Hall.
  cbn [server_loop]. destruct (shutdown_flag t) eqn:Hs; [reflexivity|].
  destruct Hstop as [H|H]; [discriminate|]. rewrite H. reflexivity.
Qed.

End AcceptLoopExtras.

(** ** Persistence *)

Section PersistenceExtras.
Import Persistence PersistenceRestore.
Local Open Scope string_scope.

Lemma map_remove_none_get (k : string) (m : list (string * json)) :
  map_remove k m = None -> map_get k m = None.
Proof.
  induction m as [|[k' v] m IH]; cbn; [reflexivity|].
  destruct (String.eqb k k'); [discriminate|].
  destruct (map_remove k m) as [[x r]|]; [discriminate|]. intros _. apply IH. reflexivity.
Qed.

Lemma map_remove_some_get (k : string) (m : list (string * json)) (v : json) m' :
  map_remove k m = Some (v, m') ->
  map_get k m = Some v /\ forall k', k' <> k -> map_get k' m' = map_get k' m.
Proof.
  revert m'. induction m as [|[k0 v0] m IH]; intros m' H; cbn in H |- *; [discriminate|].
  destruct (String.eqb_spec k k0) as [<-|Hk].
  - injection H as <- <-. split; [reflexivity|].
    intros k' Hne. destruct (String.eqb_spec k' k); [contradiction|reflexivity].
  - destruct (map_remove k m) as [[x r]|] eqn:E; [|discriminate].
    injection H as <- <-. destruct (IH r eq_refl) as [Hg Ho]. split; [exact Hg|].
    intros k' Hne. cbn. destruct (String.eqb k' k0); [reflexivity|]. apply Ho, Hne.
Qed.

(** X14: on a document that parses to an object, [restore_from_json]
    depends only on the values found under "topic_handler" and
    "clients_manager": any other key is ignored. With both present it
    deserialises them (a failure is a [DumpError]); with either missing it
    panics. *)
Lemma restore_from_json_by_lookup {TH CM : Type} (from_str : string -> result json string)
    (th_of : json -> result TH string) (cm_of : json -> result CM string)
    (s : string) (obj : list (string * json)) :
  from_str s = Ok (JObject obj) ->
  restore_from_json from_str th_of cm_of s
  = match map_get "topic_handler" obj, map_get "clients_manager" obj with
    | Some t, Some c =>
        match th_of t with
        | Err _ => Returns (Err DumpError)
        | Ok th =>
            match cm_of c with
            | Err _ => Returns (Err DumpError)
            | Ok cm => Returns (Ok (th, cm))
            end
        end
    | _, _ => Panics unwrap_none_msg
    end.
Proof.
  intros Hs. unfold restore_from_json. rewrite Hs.
  destruct (map_remove "topic_handler" obj) as [[t obj']|] eqn:E1.
  - destruct (map_remove_some_get _ _ _ _ E1) as [Hg1 Ho1]. rewrite Hg1.
    rewrite <- (Ho1 "clients_manager") by discriminate.
    destruct (map_remove "clients_manager" obj') as [[c obj'']|] eqn:E2.
    + destruct (map_remove_some_get _ _ _ _ E2) as [Hg2 _]. rewrite Hg2. reflexivity.
    + rewrite (map_remove_none_get _ _ E2). reflexivity.
  - rewrite (map_remove_none_get _ _ E1). reflexivity.
Qed.

End PersistenceExtras.

(** ** The client's subscription list *)

Section SubscriptionListExtras.
Import Subscriptions.
Local Open Scope string_scope.

Lemma in_keys {V : Type} (k : string) (v : V) (m : list (string * V)) :
  In (k, v) m -> In k (map fst m).
Proof. intros H. exact (in_map fst _ _ H). Qed.

Lemma nodup_key_unique {V : Type} (m : list (string * V)) (k : string) (v1 v2 : V) :
  NoDup (map fst m) -> In (k, v1) m -> In (k, v2) m -> v1 = v2.
Proof.
  induction m as [|[k' v] m IH]; intros Hnd H1 H2; [contradiction|].
  inversion Hnd as [|? ? Hnin Hnd']; subst.
  destruct H1 as [H1|H1]; destruct H2 as [H2|H2].
  - injection H1 as _ <-. injection H2 as _ <-. reflexivity.
  - injection H1 as -> _. exfalso. apply Hnin. exact (in_keys _ _ _ H2).
  - injection H2 as -> _. exfalso. apply Hnin. exact (in_keys _ _ _ H1).
  - exact (IH Hnd' H1 H2).
Qed.

Lemma nodup_map_unique {A B : Type} (f : A -> B) (l : list A) (x y : A) :
  NoDup (map f l) -> In x l -> In y l -> f x = f y -> x = y.
Proof.
  induction l as [|a l IH]; intros Hnd Hx Hy Hf; [contradiction|].
  cbn in Hnd. inversion Hnd as [|? ? Hnin Hnd']; subst.
  destruct Hx as [<-|Hx]; destruct Hy as [<-|Hy].
  - reflexivity.
  - exfalso. apply Hnin. rewrite Hf. apply in_map, Hy.
  - exfalso. apply Hnin. rewrite <- Hf. apply in_map, Hx.
  - exact (IH Hnd' Hx Hy Hf).
Qed.

Lemma remove_row_ids_nodup (id : nat) (rows : list SubBox) :
  NoDup (map box_id rows) -> NoDup (map box_id (remove_row id rows)).
Proof.
  unfold remove_row. intros Hnd.
  induction rows as [|r rows IH]; [constructor|].
  cbn [map] in Hnd. apply NoDup_cons_iff in Hnd as [Hr Hrest].
  cbn [filter]. destruct (negb (Nat.eqb (box_id r) id)); [|apply IH, Hrest].
  cbn [map]. apply NoDup_cons_iff. split; [|apply IH, Hrest].
  rewrite in_map_iff. intros [r' [Hid Hin]]. apply filter_In in Hin as [Hin _].
  apply Hr. rewrite <- Hid. exact (in_map box_id _ _ Hin).
Qed.

Lemma nodup_snoc {A : Type} (l : list A) (x : A) : NoDup l -> ~ In x l -> NoDup (l ++ [x]).
Proof.
  induction l as [|a l IH]; intros Hnd Hnin; cbn; [constructor; [intros []|constructor]|].
  inversion Hnd as [|? ? Hna Hnd']; subst. constructor.
  - intros H. apply in_app_or in H as [H|[H|[]]]; [contradiction|]. apply Hnin. left. symmetry. exact H.
  - apply IH; [exact Hnd'|]. intros H. apply Hnin. right. exact H.
Qed.

Lemma hm_get_none {V : Type} (k : string) (m : list (string * V)) :
  hm_get k m = None <-> ~ In k (map fst m).
Proof.
  induction m as [|[k' v] m IH]; cbn; [split; auto|].
  destruct (String.eqb_spec k k') as [->|Hne].
  - split; [discriminate|]. intros H. exfalso. apply H. left. reflexivity.
  - rewrite IH. split; intros H H'; apply H.
    + destruct H' as [H'|H']; [congruence|exact H'].
    + right. exact H'.
Qed.

Lemma hm_get_some {V : Type} (k : string) (v : V) (m : list (string * V)) :
  NoDup (map fst m) -> (hm_get k m = Some v <-> In (k, v) m).
Proof.
  induction m as [|[k' v'] m IH]; cbn; intros Hnd; [split; [discriminate|contradiction]|].
  inversion Hnd as [|? ? Hnin Hnd']; subst.
  destruct (String.eqb_spec k k') as [->|Hne].
  - split.
    + intros H. injection H as ->. left. reflexivity.
    + intros [H|H].
      * injection H as ->. reflexivity.
      * exfalso. apply Hnin. exact (in_keys _ _ _ H).
  - rewrite IH by exact Hnd'. split.
    + intros H. right. exact H.
    + intros [H|H]; [injection H as <- _; contradiction|exact H].
Qed.

Lemma hm_remove_absent {V : Type} (k : string) (m : list (string * V)) :
  ~ In k (map fst m) -> hm_remove k m = (None, m).
Proof.
  induction m as [|[k' v] m IH]; intros Hnin; cbn; [reflexivity|].
  destruct (String.eqb_spec k k') as [->|Hne].
  - exfalso. apply Hnin. left. reflexivity.
  - rewrite IH; [reflexivity|]. intros H. apply Hnin. right. exact H.
Qed.

Lemma hm_remove_spec {V : Type} (k : string) (m : list (string * V)) :
  NoDup (map fst m) ->
  (forall x, In x (snd (hm_remove k m)) <-> In x m /\ fst x <> k) /\
  NoDup (map fst (snd (hm_remove k m))) /\
  (fst (hm_remove k m) = None -> snd (hm_remove k m) = m) /\
  (forall v, fst (hm_remove k m) = Some v -> In (k, v) m).
Proof.
  induction m as [|[k' v] m IH]; intros Hnd.
  - cbn. split; [intros x; split; [contradiction|intros [[] _]]|].
    split; [constructor|]. split; [reflexivity|discriminate].
  - inversion Hnd as [|? ? Hnin Hnd']; subst. cbn [hm_remove].
    destruct (String.eqb_spec k k') as [<-|Hne].
    + cbn [fst snd]. split; [|split; [exact Hnd'|split; [discriminate|]]].
      * intros x. split.
        -- intros Hx. split; [right; exact Hx|]. intros Hfx. apply Hnin.
           rewrite <- Hfx. apply in_map, Hx.
        -- intros [[Hx|Hx] Hfx]; [subst x; cbn in Hfx; contradiction|exact Hx].
      * intros v0 H. injection H as <-. left. reflexivity.
    + destruct (IH Hnd') as (Hin & Hnd2 & Hnone & Hsome).
      destruct (hm_remove k m) as [o r]. cbn [fst snd] in *.
      split; [|split; [|split]].
      * intros x. cbn [In]. rewrite Hin. split.
        -- intros [<-|[Hx Hfx]]; [split; [left; reflexivity|cbn; congruence]|].
           split; [right; exact Hx|exact Hfx].
        -- intros [[<-|Hx] Hfx]; [left; reflexivity|right; split; assumption].
      * cbn [map fst]. constructor; [|exact Hnd2].
        intros Hk. apply in_map_iff in Hk as [[k2 v2] [Hk2 Hx]]. cbn in Hk2. subst k2.
        apply Hin in Hx as [Hx _]. apply Hnin. exact (in_keys _ _ _ Hx).
      * intros Ho. rewrite (Hnone Ho). reflexivity.
      * intros v0 Ho. right. apply Hsome, Ho.
Qed.

Lemma new_inv : inv new.
Proof.
  unfold inv, new. cbn. split; [constructor|]. split; [contradiction|].
  split; [intros b; split; [contradiction|intros [k []]]|]. split; [constructor|contradiction].
Qed.

Lemma remove_sub_spec (l : SubscriptionList) (t : string) :
  inv l ->
  inv (remove_sub l t) /\ ~ In t (map fst (subs (remove_sub l t))) /\
  (forall k b, k <> t -> (In (k, b) (subs (remove_sub l t)) <-> In (k, b) (subs l))) /\
  next_box (remove_sub l t) = next_box l.
Proof.
  intros (Hnd & Htop & Hrows & Hids & Hlt).
  destruct (hm_remove_spec t (subs l) Hnd) as (Hin & Hnd2 & Hnone & Hsome).
  unfold remove_sub. destruct (hm_remove t (subs l)) as [[b|] m'] eqn:E; cbn [fst snd] in *.
  - cbn [list_rows subs next_box].
    specialize (Hsome b eq_refl).
    assert (Hbrow : In b (list_rows l)) by (apply Hrows; eauto).
    assert (Htb : box_topic b = t) by exact (Htop _ _ Hsome).
    split; [|split; [|split]].
    + unfold inv. cbn [list_rows subs next_box]. split; [exact Hnd2|]. split.
      { intros k b' Hk. apply Hin in Hk as [Hk _]. exact (Htop _ _ Hk). }
      split; [|split].
      * intros b'. unfold remove_row. rewrite filter_In. split.
        -- intros [Hb' Hid]. apply Hrows in Hb' as [k Hk]. exists k. apply Hin.
           split; [exact Hk|]. cbn. intros ->.
           assert (b' = b) as -> by exact (nodup_key_unique _ _ _ _ Hnd Hk Hsome).
           rewrite Nat.eqb_refl in Hid. discriminate.
        -- intros [k Hk]. apply Hin in Hk as [Hk Hkt]. cbn in Hkt.
           split; [apply Hrows; eauto|].
           apply negb_true_iff, Nat.eqb_neq. intros Hid.
           assert (b' = b) as -> by
             exact (nodup_map_unique box_id _ _ _ Hids ltac:(apply Hrows; eauto) Hbrow Hid).
           apply Htop in Hk. congruence.
      * apply remove_row_ids_nodup. exact Hids.
      * intros b' Hb'. unfold remove_row in Hb'. apply filter_In in Hb' as [Hb' _].
        exact (Hlt _ Hb').
    + intros Hk. apply in_map_iff in Hk as [[k2 v2] [Hk2 Hx]]. cbn in Hk2. subst k2.
      apply Hin in Hx as [_ Hx]. cbn in Hx. contradiction.
    + intros k b' Hkt. rewrite Hin. cbn. split; [intros [H _]; exact H|intros H; split; assumption].
    + reflexivity.
  - specialize (Hnone eq_refl). subst m'.
    split; [split; auto|]. split; [|split; [intros; reflexivity|reflexivity]].
    intros Hk. apply in_map_iff in Hk as [x [Hx Hxin]].
    apply Hin in Hxin as [_ Hne]. contradiction.
Qed.

Lemma add_sub_spec (l : SubscriptionList) (t : string) (q : Z) :
  inv l ->
  let b := {| box_id := next_box l; box_qos := q; box_topic := t |} in
  inv (add_sub l t q) /\
  list_rows (add_sub l t q) = (list_rows (remove_sub l t) ++ [b])%list /\
  subs (add_sub l t q) = (t, b) :: subs (remove_sub l t).
Proof.
  intros Hinv b.
  destruct (remove_sub_spec l t Hinv) as (Hinv1 & Hnin & _ & Hnext).
  assert (Hs : subs (add_sub l t q) = (t, b) :: subs (remove_sub l t)).
  { unfold add_sub, hm_insert. cbn [subs]. rewrite (hm_remove_absent _ _ Hnin).
    unfold create_sub_box, b. rewrite Hnext. reflexivity. }
  assert (Hr : list_rows (add_sub l t q) = (list_rows (remove_sub l t) ++ [b])%list).
  { unfold add_sub. cbn [list_rows]. unfold create_sub_box, b. rewrite Hnext. reflexivity. }
  split; [|split; [exact Hr|exact Hs]].
  destruct Hinv1 as (Hnd & Htop & Hrows & Hids & Hlt).
  assert (Hn : next_box (add_sub l t q) = S (next_box l)).
  { unfold add_sub. cbn [next_box]. rewrite Hnext. reflexivity. }
  unfold inv. rewrite Hs, Hr, Hn. split; [|split; [|split; [|split]]].
  - cbn [map fst]. constructor; assumption.
  - intros k b' [H|H]; [injection H as <- <-; reflexivity|exact (Htop _ _ H)].
  - intros b'. rewrite in_app_iff. cbn [In]. split.
    + intros [H|[<-|[]]].
      * apply Hrows in H as [k Hk]. exists k. right. exact Hk.
      * exists t. left. reflexivity.
    + intros [k [H|H]].
      * injection H as _ <-. right. left. reflexivity.
      * left. apply Hrows. eauto.
  - rewrite map_app. cbn [map]. apply nodup_snoc; [exact Hids|].
    intros Hin. apply in_map_iff in Hin as [b' [Hid Hb']]. specialize (Hlt _ Hb').
    rewrite Hnext in Hlt. cbn in Hid. lia.
  - intros b' Hb'. apply in_app_or in Hb' as [Hb'|[<-|[]]].
    + specialize (Hlt _ Hb'). rewrite Hnext in Hlt. lia.
    + cbn. lia.
Qed.

Lemma rows_of_absent (l : SubscriptionList) (t : string) :
  inv l -> ~ In t (map fst (subs l)) -> rows_of t l = [].
Proof.
  intros (Hnd & Htop & Hrows & _) Hnin. unfold rows_of.
  destruct (filter (fun b => String.eqb (box_topic b) t) (list_rows l)) as [|b r] eqn:E;
    [reflexivity|].
  assert (Hb : In b (filter (fun b => String.eqb (box_topic b) t) (list_rows l)))
    by (rewrite E; left; reflexivity).
  apply filter_In in Hb as [Hb Ht]. apply String.eqb_eq in Ht.
  apply Hrows in Hb as [k Hk]. rewrite (Htop _ _ Hk) in Ht. subst k.
  exfalso. apply Hnin. exact (in_keys _ _ _ Hk).
Qed.

Lemma add_sub_get_other (l : SubscriptionList) (t t' : string) (q : Z) :
  inv l -> t' <> t -> hm_get t' (subs (add_sub l t q)) = hm_get t' (subs l).
Proof.
  intros Hinv Hne.
  destruct (add_sub_spec l t q Hinv) as (Hinv' & _ & Hs).
  destruct (remove_sub_spec l t Hinv) as (_ & _ & Hsame & _).
  destruct (hm_get t' (subs l)) as [b|] eqn:E.
  - apply hm_get_some; [exact (proj1 Hinv')|]. rewrite Hs. right. apply Hsame; [exact Hne|].
    apply hm_get_some; [exact (proj1 Hinv)|exact E].
  - apply hm_get_none. intros Hk. apply in_map_iff in Hk as [[k b] [Hk Hin]]. cbn in Hk. subst k.
    rewrite Hs in Hin. destruct Hin as [Hin|Hin]; [injection Hin as <- _; contradiction|].
    apply Hsame in Hin; [|exact Hne].
    apply hm_get_none in E. apply E. exact (in_keys _ _ _ Hin).
Qed.

Lemma remove_sub_get_other (l : SubscriptionList) (t t' : string) :
  inv l -> t' <> t -> hm_get t' (subs (remove_sub l t)) = hm_get t' (subs l).
Proof.
  intros Hinv Hne.
  destruct (remove_sub_spec l t Hinv) as (Hinv' & _ & Hsame & _).
  destruct (hm_get t' (subs l)) as [b|] eqn:E.
  - apply hm_get_some; [exact (proj1 Hinv')|]. apply Hsame; [exact Hne|].
    apply hm_get_some; [exact (proj1 Hinv)|exact E].
  - apply hm_get_none. intros Hk. apply in_map_iff in Hk as [[k b] [Hk Hin]]. cbn in Hk. subst k.
    apply Hsame in Hin; [|exact Hne].
    apply hm_get_none in E. apply E. exact (in_keys _ _ _ Hin).
Qed.

Lemma remove_sub_get_self (l : SubscriptionList) (t : string) :
  inv l -> hm_get t (subs (remove_sub l t)) = None.
Proof.
  intros Hinv. destruct (remove_sub_spec l t Hinv) as (_ & Hnin & _).
  apply hm_get_none. exact Hnin.
Qed.

Lemma add_subs_inv (l : SubscriptionList) (tfs : list TopicFilter) :
  inv l -> inv (add_subs l tfs).
Proof.
  revert l. induction tfs as [|tf tfs IH]; intros l Hinv; [exact Hinv|].
  apply IH. exact (proj1 (add_sub_spec l (name tf) (tf_qos tf) Hinv)).
Qed.

Lemma remove_subs_inv (l : SubscriptionList) (tfs : list TopicFilter) :
  inv l -> inv (remove_subs l tfs).
Proof.
  revert l. induction tfs as [|tf tfs IH]; intros l Hinv; [exact Hinv|].
  apply IH. exact (proj1 (remove_sub_spec l (name tf) Hinv)).
Qed.

End SubscriptionListExtras.

Section SubscriptionListProperties.
Import Subscriptions.
Local Open Scope string_scope.

Lemma add_subs_get_other (l : SubscriptionList) (tfs : list TopicFilter) (t : string) :
  inv l -> ~ In t (map name tfs) -> hm_get t (subs (add_subs l tfs)) = hm_get t (subs l).
Proof.
  revert l. induction tfs as [|tf tfs IH]; intros l Hinv Hnin; [reflexivity|].
  cbn [add_subs fold_left]. fold (add_subs (add_sub l (name tf) (tf_qos tf)) tfs).
  rewrite IH.
  - apply add_sub_get_other; [exact Hinv|]. intros ->. apply Hnin. left. reflexivity.
  - exact (proj1 (add_sub_spec l (name tf) (tf_qos tf) Hinv)).
  - intros H. apply Hnin. right. exact H.
Qed.

Lemma remove_subs_get_other (l : SubscriptionList) (tfs : list TopicFilter) (t : string) :
  inv l -> ~ In t (map name tfs) -> hm_get t (subs (remove_subs l tfs)) = hm_get t (subs l).
Proof.
  revert l. induction tfs as [|tf tfs IH]; intros l Hinv Hnin; [reflexivity|].
  cbn [remove_subs fold_left]. fold (remove_subs (remove_sub l (name tf)) tfs).
  rewrite IH.
  - apply remove_sub_get_other; [exact Hinv|]. intros ->. apply Hnin. left. reflexivity.
  - exact (proj1 (remove_sub_spec l (name tf) Hinv)).
  - intros H. apply Hnin. right. exact H.
Qed.

Lemma remove_subs_keeps_absent (l : SubscriptionList) (tfs : list TopicFilter) (t : string) :
  inv l -> hm_get t (subs l) = None -> hm_get t (subs (remove_subs l tfs)) = None.
Proof.
  revert l. induction tfs as [|tf tfs IH]; intros l Hinv Hnone; [exact Hnone|].
  cbn [remove_subs fold_left]. fold (remove_subs (remove_sub l (name tf)) tfs).
  apply IH; [exact (proj1 (remove_sub_spec l (name tf) Hinv))|].
  destruct (String.eqb_spec t (name tf)) as [->|Hne].
  - apply remove_sub_get_self, Hinv.
  - rewrite remove_sub_get_other; assumption.
Qed.

Lemma remove_subs_get_in (l : SubscriptionList) (tfs : list TopicFilter) (t : string) :
  inv l -> In t (map name tfs) -> hm_get t (subs (remove_subs l tfs)) = None.
Proof.
  revert l. induction tfs as [|tf tfs IH]; intros l Hinv Hin; [contradiction|].
  cbn [remove_subs fold_left]. fold (remove_subs (remove_sub l (name tf)) tfs).
  pose proof (proj1 (remove_sub_spec l (name tf) Hinv)) as Hinv1.
  destruct Hin as [Hin|Hin].
  - apply remove_subs_keeps_absent; [exact Hinv1|]. rewrite <- Hin. apply remove_sub_get_self, Hinv.
  - exact (IH _ Hinv1 Hin).
Qed.

Lemma rows_of_get_none (l : SubscriptionList) (t : string) :
  inv l -> hm_get t (subs l) = None -> rows_of t l = [].
Proof. intros Hinv Hn. apply rows_of_absent; [exact Hinv|]. apply hm_get_none, Hn. Qed.

(** X16: the subscription list starts empty and consistent, and adding or
    removing any list of topic filters keeps it consistent: one map entry
    per topic holding a box of that topic, the list rows are exactly the
    boxes of the map, and no two rows are the same widget. *)
Lemma subscription_list_inv_preserved :
  inv new /\
  (forall l tfs, inv l -> inv (add_subs l tfs) /\ inv (remove_subs l tfs)).
Proof.
  split; [exact new_inv|].
  intros l tfs Hinv. split; [apply add_subs_inv, Hinv|apply remove_subs_inv, Hinv].
Qed.

(** X17: [add_sub t q] on a consistent list leaves exactly one row for [t],
    a new box with QoS [q] that the map holds under [t]: its id is the
    list's next box id, and it was not among the rows before (an earlier
    box of [t] is removed from the list); the entry of every other topic
    is unchanged. *)
Lemma add_sub_replaces_topic (l : SubscriptionList) (t : string) (q : Z) :
  inv l ->
  inv (add_sub l t q) /\
  (exists b, hm_get t (subs (add_sub l t q)) = Some b /\ box_qos b = q /\
             box_topic b = t /\ box_id b = next_box l /\ ~ In b (list_rows l) /\
             rows_of t (add_sub l t q) = [b]) /\
  (forall t', t' <> t -> hm_get t' (subs (add_sub l t q)) = hm_get t' (subs l)).
Proof.
  intros Hinv.
  destruct (add_sub_spec l t q Hinv) as (Hinv' & Hr & Hs).
  destruct (remove_sub_spec l t Hinv) as (Hinv1 & Hnin & _).
  split; [exact Hinv'|]. split.
  - eexists. split; [rewrite Hs; cbn; rewrite String.eqb_refl; reflexivity|].
    split; [reflexivity|]. split; [reflexivity|]. split; [reflexivity|].
    split.
    { intros Hin. destruct Hinv as (_ & _ & _ & _ & Hlt).
      specialize (Hlt _ Hin). cbn [box_id] in Hlt. lia. }
    unfold rows_of. rewrite Hr, filter_app.
    fold (rows_of t (remove_sub l t)). rewrite (rows_of_absent _ _ Hinv1 Hnin).
    cbn. rewrite String.eqb_refl. reflexivity.
  - intros t' Hne. apply add_sub_get_other; assumption.
Qed.

(** X18: [remove_sub t] on a consistent list drops the map entry of [t] and
    every row showing [t], and leaves the entry of every other topic
    unchanged. *)
Lemma remove_sub_drops_topic (l : SubscriptionList) (t : string) :
  inv l ->
  inv (remove_sub l t) /\
  hm_get t (subs (remove_sub l t)) = None /\ rows_of t (remove_sub l t) = [] /\
  (forall t', t' <> t -> hm_get t' (subs (remove_sub l t)) = hm_get t' (subs l)).
Proof.
  intros Hinv.
  destruct (remove_sub_spec l t Hinv) as (Hinv1 & Hnin & _).
  split; [exact Hinv1|]. split; [apply hm_get_none, Hnin|].
  split; [exact (rows_of_absent _ _ Hinv1 Hnin)|].
  intros t' Hne. apply remove_sub_get_other; assumption.
Qed.

(** X19: removing a list of topic filters after adding the same list leaves
    no entry and no row for any of those topics, and every other topic's
    entry as it was before the additions. *)
Lemma remove_subs_after_add_subs (l : SubscriptionList) (tfs : list TopicFilter) :
  inv l ->
  (forall t, In t (map name tfs) ->
     hm_get t (subs (remove_subs (add_subs l tfs) tfs)) = None /\
     rows_of t (remove_subs (add_subs l tfs) tfs) = []) /\
  (forall t, ~ In t (map name tfs) ->
     hm_get t (subs (remove_subs (add_subs l tfs) tfs)) = hm_get t (subs l)).
Proof.
  intros Hinv.
  pose proof (add_subs_inv l tfs Hinv) as Hinv1.
  pose proof (remove_subs_inv _ tfs Hinv1) as Hinv2.
  split.
  - intros t Hin. pose proof (remove_subs_get_in _ tfs t Hinv1 Hin) as Hn.
    split; [exact Hn|exact (rows_of_get_none _ _ Hinv2 Hn)].
  - intros t Hnin. rewrite (remove_subs_get_other _ tfs t Hinv1 Hnin).
    exact (add_subs_get_other l tfs t Hinv Hnin).
Qed.

End SubscriptionListProperties.

(** ** The client's interface observer *)

Section ObserverProperties.
Import Subscriptions Observer.

(** X20: a message that reports the result of an operation (connect,
    publish, subscribe, unsubscribe) re-enables the interface and shows the
    "ok" icon on success and the "error" icon on failure; a failure leaves
    the subscription list as it was. *)
Lemma message_receiver_reports_result (on_clicked : Ui -> Ui) (ui : Ui) (m : Message) (ok : bool) :
  result_of m = Some ok ->
  content_sensitive (message_receiver on_clicked ui m) = true /\
  discon_sensitive (message_receiver on_clicked ui m) = true /\
  status_icon (message_receiver on_clicked ui m) = icon_name (if ok then IconOk else IconError) /\
  (ok = false -> sub_list (message_receiver on_clicked ui m) = sub_list ui).
Proof.
  destruct m as [t p q|[u|e]|[u|e]|[tfs|e]|[tfs|e]|e]; cbn; intros H;
    try discriminate; injection H as <-;
    repeat split; intros; try discriminate; reflexivity.
Qed.

(** X21: only an internal error clicks the disconnect button or shows an
    alert: for every other message the result does not depend on the
    button's handler and no alert is added. The feed grows by exactly one
    row, the topic, payload (empty if absent) and QoS, on a received
    publication, and is unchanged otherwise; a publication changes neither
    the enabled state, the status icon and message, nor the subscription
    list. *)
Lemma message_receiver_no_click (on_clicked : Ui -> Ui) (ui : Ui) (m : Message) :
  (forall e, m <> MInternalError e) ->
  (forall on_clicked', message_receiver on_clicked' ui m = message_receiver on_clicked ui m) /\
  alerts (message_receiver on_clicked ui m) = alerts ui /\
  feed (message_receiver on_clicked ui m)
  = (feed ui ++ match m with
                | MPublish t p q => [(t, match p with Some s => s | None => EmptyString end, q)]
                | _ => []
                end)%list /\
  (forall t p q, m = MPublish t p q ->
     content_sensitive (message_receiver on_clicked ui m) = content_sensitive ui /\
     discon_sensitive (message_receiver on_clicked ui m) = discon_sensitive ui /\
     status_icon (message_receiver on_clicked ui m) = status_icon ui /\
     status_label (message_receiver on_clicked ui m) = status_label ui /\
     sub_list (message_receiver on_clicked ui m) = sub_list ui).
Proof.
  intros Hne.
  destruct m as [t p q|[u|e]|[u|e]|[tfs|e]|[tfs|e]|e];
    [| | | | | | | | |exfalso; exact (Hne e eq_refl)];
    cbn; rewrite ?app_nil_r;
    (split; [reflexivity|]); (split; [reflexivity|]); (split; [reflexivity|]);
    intros t' p' q' Heq; try discriminate Heq; repeat split.
Qed.

(** X22: whatever message the observer receives, a consistent subscription
    list stays consistent, provided the disconnect button's handler (run
    on an internal error) keeps it consistent. *)
Lemma message_receiver_keeps_sub_list_inv (on_clicked : Ui -> Ui) (ui : Ui) (m : Message) :
  (forall u, inv (sub_list u) -> inv (sub_list (on_clicked u))) ->
  inv (sub_list ui) -> inv (sub_list (message_receiver on_clicked ui m)).
Proof.
  intros Hclick Hinv.
  destruct m as [t p q|[u|e]|[u|e]|[tfs|e]|[tfs|e]|e]; cbn; try exact Hinv.
  - apply add_subs_inv, Hinv.
  - apply remove_subs_inv, Hinv.
  - apply Hclick. exact Hinv.
Qed.

End ObserverProperties.

(** * Witnesses of the further properties *)

Section UnsubscribeWitnesses.
Import UnsubscribePacket.

Lemma unsubscribe_read_from_roundtrip_witness :
  let tf := repeat 97 130 in
  let body := [0; 1] ++ field_encode tf in
  Forall valid_filter [tf] /\
  encode_remaining_length (Z.of_nat (List.length body)) = [134; 1] /\
  read_from ([134; 1] ++ body) 0xA2 = Ok {| packet_id := 1; topic_filters := [tf] |}.
Proof.
  intros tf body.
  assert (Hv : Forall valid_filter [tf]).
  { constructor; [|constructor]. split; [discriminate|]. split; [vm_compute; reflexivity|].
    split; [vm_compute; reflexivity|]. vm_compute. reflexivity. }
  split; [exact Hv|]. split; [vm_compute; reflexivity|].
  exact (unsubscribe_read_from_roundtrip 0 1 [tf] [] [] Hv
           ltac:(discriminate) ltac:(reflexivity) ltac:(vm_compute; reflexivity)).
Defined.

Lemma unsubscribe_read_from_ok_shape_witness :
  read_from [7; 0; 1; 0; 3; 97; 47; 98] 0xA2
  = Ok {| packet_id := 1; topic_filters := [bytes_of_string "a/b"] |} /\
  [bytes_of_string "a/b"] <> [] /\
  Forall (fun v => v <> [] /\ utf8_valid v = true /\ existsb (Z.eqb 0) v = false)
    [bytes_of_string "a/b"].
Proof.
  assert (H : read_from [7; 0; 1; 0; 3; 97; 47; 98] 0xA2
              = Ok {| packet_id := 1; topic_filters := [bytes_of_string "a/b"] |})
    by (vm_compute; reflexivity).
  split; [exact H|].
  exact (proj2 (unsubscribe_read_from_ok_shape _ 0xA2 _ ltac:(lia) H)).
Defined.

Lemma unsubscribe_read_from_errors_witness :
  read_from [0] 0x13 = Err (PacketErr InvalidControlPacketType) /\
  read_from [0] 0xA0 = Err InvalidReservedBits /\
  read_from [9; 0; 1; 0; 3; 97; 47; 98; 0; 0] 0xA2 = Err (PacketErr InvalidProtocol).
Proof.
  split; [|split].
  - apply (proj1 (unsubscribe_read_from_errors [0] 0x13 ltac:(lia))). vm_compute. discriminate.
  - apply (proj1 (proj2 (unsubscribe_read_from_errors [0] 0xA0 ltac:(lia)))).
    + reflexivity.
    + vm_compute. discriminate.
  - assert (Hv : Forall valid_filter [bytes_of_string "a/b"]).
    { constructor; [|constructor]. split; [discriminate|]. split; [reflexivity|].
      split; [reflexivity|]. vm_compute. reflexivity. }
    apply (proj2 (proj2 (proj2 (unsubscribe_read_from_errors
             [9; 0; 1; 0; 3; 97; 47; 98; 0; 0] 0xA2 ltac:(lia)))
             [0; 1; 0; 3; 97; 47; 98; 0; 0] [] eq_refl ltac:(vm_compute; reflexivity))
             0 1 [bytes_of_string "a/b"] [] Hv).
    vm_compute. reflexivity.
Defined.

End UnsubscribeWitnesses.

Section ConnectWitnesses.
Import ServerConnect.

Lemma connect_new_roundtrip_witness :
  let body := connect_body 0xC6 0 60 (bytes_of_string "id") (bytes_of_string "w")
                (repeat 98 120) (bytes_of_string "u") (bytes_of_string "pw") in
  encode_remaining_length (Z.of_nat (List.length body)) = [146; 1] /\
  new (0x10, 146) ([1] ++ body ++ [])
  = Ok {| client_id := bytes_of_string "id"; clean_session := true;
          user_name := Some (bytes_of_string "u"); password := Some (bytes_of_string "pw");
          last_will := Some {| retain := false; qos := QoSLevel0;
                               topic := bytes_of_string "w"; message := repeat 98 120 |};
          keep_alive := 60 |}.
Proof.
  assert (Hf : forall v, valid_field v <->
                 (utf8_valid v && negb (existsb (Z.eqb 0) v)
                  && (Z.of_nat (List.length v) <? 65536))%bool = true).
  { intros v. unfold valid_field. rewrite !andb_true_iff, negb_true_iff, Z.ltb_lt. tauto. }
  split; [vm_compute; reflexivity|].
  exact (connect_new_roundtrip 0xC6 0 60 (bytes_of_string "id") (bytes_of_string "w")
           (repeat 98 120) (bytes_of_string "u") (bytes_of_string "pw") []
           eq_refl ltac:(intros H; discriminate H)
           (proj2 (Hf (bytes_of_string "id")) eq_refl) (proj2 (Hf (bytes_of_string "w")) eq_refl)
           (proj2 (Hf (repeat 98 120)) eq_refl) (proj2 (Hf (bytes_of_string "u")) eq_refl)
           (proj2 (Hf (bytes_of_string "pw")) eq_refl)
           ltac:(vm_compute; reflexivity)).
Defined.

Lemma will_bits_without_will_flag_rejected_witness :
  let b := mqtt_field ++ [4; 0x0A; 0; 60] ++ id_field in
  read_packet_bytes (16, 14) b = Ok (b, []) /\ new (16, 14) b = Err InvalidFlags.
Proof.
  intros b.
  assert (Hread : read_packet_bytes (16, 14) b = Ok (b, [])) by (vm_compute; reflexivity).
  split; [exact Hread|].
  exact (will_bits_without_will_flag_rejected (16, 14) b b [] 0x0A ([0; 60] ++ id_field)
           Hread eq_refl eq_refl eq_refl).
Defined.

Lemma wrong_protocol_name_rejected_witness :
  let b := field_encode (bytes_of_string "MQTS") ++ [4; 0; 0; 60] ++ id_field in
  read_packet_bytes (16, 14) b = Ok (b, []) /\ new (16, 14) b = Err InvalidProtocol.
Proof.
  intros b.
  assert (Hread : read_packet_bytes (16, 14) b = Ok (b, [])) by (vm_compute; reflexivity).
  split; [exact Hread|].
  apply (wrong_protocol_name_rejected (16, 14) b b [] (bytes_of_string "MQTS")
           ([4; 0; 0; 60] ++ id_field) Hread eq_refl).
  - split; [reflexivity|]. split; [reflexivity|]. vm_compute. reflexivity.
  - vm_compute. discriminate.
Defined.

End ConnectWitnesses.

Section ClientLoopWitnesses.
Import ClientLoop.

Lemma client_loop_no_keep_alive_runs_witness :
  exists l, client_loop None 0
    [{| ev_now := 1000; ev_read := Failed Timeout; ev_resend_ok := true |};
     {| ev_now := 1500; ev_read := Processed PPingReq; ev_resend_ok := true |}]
  = (Running l, [SendUnacknowledged (Some 2000%nat)]).
Proof.
  apply (client_loop_no_keep_alive_runs 0).
  constructor; [split; [reflexivity|left; reflexivity]|].
  constructor; [|constructor].
  split; [reflexivity|]. right. exists PPingReq. split; [reflexivity|discriminate].
Defined.

End ClientLoopWitnesses.

Section AcceptLoopWitnesses.
Import AcceptLoop.

Lemma server_loop_spawns_every_connection_witness :
  let turns := [{| shutdown_flag := false; accept := Accepted 3; now := 10; dump_result := Ok tt |};
                {| shutdown_flag := false; accept := AcceptIdle; now := 20; dump_result := Ok tt |}] in
  server_loop (Ok tt) None 0 turns = (Looping, [SpawnClient 3; Sleep]) /\
  spawned [SpawnClient 3; Sleep] = [3%nat].
Proof.
  apply (server_loop_spawns_every_connection 0).
  constructor; [split; [reflexivity|discriminate]|].
  constructor; [split; [reflexivity|discriminate]|constructor].
Defined.

Lemma server_loop_stops_then_shutdown_witness :
  server_loop (Err ServerIo) None 0
    ([{| shutdown_flag := false; accept := Accepted 3; now := 10; dump_result := Ok tt |}] ++
     {| shutdown_flag := false; accept := AcceptFailed; now := 20; dump_result := Ok tt |} ::
     [{| shutdown_flag := false; accept := Accepted 4; now := 30; dump_result := Ok tt |}])
  = (LoopReturned (Err ServerIo), [SpawnClient 3; LogAcceptError; Shutdown]).
Proof.
  apply (server_loop_stops_then_shutdown 0).
  - constructor; [split; [reflexivity|discriminate]|constructor].
  - right. reflexivity.
Defined.

End AcceptLoopWitnesses.

Section PersistenceWitnesses.
Import Persistence PersistenceRestore.
Local Open Scope string_scope.

Lemma restore_from_json_by_lookup_witness :
  restore_from_json
    (fun _ => Ok (JObject [("clients_manager", JNull); ("topic_handler", JNumber 1)]))
    (fun j => match j with JNumber n => Ok n | _ => Err "th" end : result Z string)
    (fun j => match j with JNull => Ok tt | _ => Err "cm" end : result unit string)
    "{}" = Returns (Ok (1, tt)).
Proof.
  rewrite (restore_from_json_by_lookup
             (fun _ => Ok (JObject [("clients_manager", JNull); ("topic_handler", JNumber 1)]))
             (fun j => match j with JNumber n => Ok n | _ => Err "th" end : result Z string)
             (fun j => match j with JNull => Ok tt | _ => Err "cm" end : result unit string)
             "{}" [("clients_manager", JNull); ("topic_handler", JNumber 1)] eq_refl).
  reflexivity.
Defined.

End PersistenceWitnesses.

Section SubscriptionListWitnesses.
Import Subscriptions.
Local Open Scope string_scope.

Lemma add_sub_replaces_topic_witness :
  exists b, rows_of "a" (add_sub (add_sub new "a" 0) "a" 1) = [b] /\ box_qos b = 1.
Proof.
  destruct (add_sub_replaces_topic (add_sub new "a" 0) "a" 1
              (proj1 (add_sub_spec new "a" 0 new_inv))) as (_ & (b & _ & Hq & _ & _ & _ & Hr) & _).
  exists b. split; assumption.
Defined.

Lemma remove_sub_drops_topic_witness :
  hm_get "a" (subs (remove_sub (add_sub (add_sub new "a" 0) "b" 1) "a")) = None /\
  rows_of "a" (remove_sub (add_sub (add_sub new "a" 0) "b" 1) "a") = [] /\
  hm_get "b" (subs (remove_sub (add_sub (add_sub new "a" 0) "b" 1) "a"))
  = hm_get "b" (subs (add_sub (add_sub new "a" 0) "b" 1)).
Proof.
  assert (Hinv : inv (add_sub (add_sub new "a" 0) "b" 1)).
  { apply (add_sub_spec _ "b" 1). apply (add_sub_spec new "a" 0). exact new_inv. }
  destruct (remove_sub_drops_topic _ "a" Hinv) as (_ & Hget & Hrows & Hother).
  split; [exact Hget|]. split; [exact Hrows|]. apply Hother. discriminate.
Defined.

Lemma remove_subs_after_add_subs_witness :
  let l := add_sub new "c" 2 in
  let tfs := [{| name := "a"; tf_qos := 0 |}; {| name := "b"; tf_qos := 1 |}] in
  rows_of "a" (remove_subs (add_subs l tfs) tfs) = [] /\
  hm_get "c" (subs (remove_subs (add_subs l tfs) tfs)) = hm_get "c" (subs l).
Proof.
  intros l tfs.
  destruct (remove_subs_after_add_subs l tfs (proj1 (add_sub_spec new "c" 2 new_inv)))
    as [Hin Hout].
  split.
  - apply (Hin "a"). left. reflexivity.
  - apply Hout. intros [H|[H|[]]]; discriminate H.
Defined.

End SubscriptionListWitnesses.

Section ObserverWitnesses.
Import Subscriptions Observer.
Local Open Scope string_scope.

Lemma message_receiver_reports_result_witness :
  let mr := message_receiver (fun u => u) sample_ui (MSubscribed (Err "timeout")) in
  content_sensitive mr = true /\ discon_sensitive mr = true /\
  status_icon mr = "error" /\ sub_list mr = sub_list sample_ui.
Proof.
  destruct (message_receiver_reports_result (fun u => u) sample_ui (MSubscribed (Err "timeout"))
              false eq_refl) as (H1 & H2 & H3 & H4).
  split; [exact H1|]. split; [exact H2|]. split; [exact H3|]. exact (H4 eq_refl).
Defined.

Lemma message_receiver_no_click_witness :
  let mr := message_receiver (fun u => u) sample_ui (MPublish "t" (Some "21.5") 1) in
  alerts mr = [] /\ feed mr = [("t", "21.5", 1)] /\ sub_list mr = sub_list sample_ui.
Proof.
  destruct (message_receiver_no_click (fun u => u) sample_ui (MPublish "t" (Some "21.5") 1)
              ltac:(intros e H; discriminate H)) as (_ & Ha & Hf & Hp).
  split; [exact Ha|]. split; [exact Hf|].
  exact (proj2 (proj2 (proj2 (proj2 (Hp "t" (Some "21.5") 1 eq_refl))))).
Defined.

Lemma message_receiver_keeps_sub_list_inv_witness :
  inv (sub_list (message_receiver (fun u => u) sample_ui
                   (MSubscribed (Ok [{| name := "a"; tf_qos := 0 |}; {| name := "a"; tf_qos := 1 |}])))).
Proof.
  apply message_receiver_keeps_sub_list_inv.
  - intros u H. exact H.
  - exact new_inv.
Defined.

End ObserverWitnesses.
